(** * AI Movie Script Generator: the Scene Store, the Scene View and the two clients

    A shallow embedding of [src/App.tsx] (the Application Shell and its Scene
    Store), of the [SceneCard] component (the Scene View), of the two
    functions of the Gemini service (the Script Client and the Image Client)
    and of the [Scene] / [MovieScript] interfaces.

    Conventions of the embedding
    - a JavaScript string is a [string]; a character is one code unit, and
      the strings of the model range over the code units 0..255;
    - a JavaScript number that the program uses as an index, a counter or a
      seed is a [Z] (every such number of the program is an integer far below
      2^53, where the arithmetic of doubles is exact);
    - a JavaScript array is a list of slots, a slot being [None] when the
      element is [undefined] (or a hole) and [Some x] otherwise;
    - [useState] cells are the fields of a state record, and a setter is an
      update of the record; what a handler does to the outside (a call of a
      client, of a callback of the parent, of the console) is logged in a
      trace, in program order;
    - the answer of the network to an outbound call is an argument of the
      function that issues the call. *)

From Stdlib Require Import ZArith String Ascii List.
From stdpp Require Import base tactics option list strings pretty.

Open Scope string_scope.
Open Scope Z_scope.

(** ** JavaScript arrays *)

Module JSArray.

Section Slots.
Context {A : Type}.

(** [a.length] *)
Definition length (a : list (option A)) : Z := Z.of_nat (List.length a).

(** [a[i]] read: [undefined] outside of [0 .. a.length - 1]. *)
Definition get (a : list (option A)) (i : Z) : option A :=
  if decide (i < 0) then None else mjoin (a !! Z.to_nat i).

(** [a[i] = v]: inside the array the slot is replaced; at or beyond
    [a.length] the array grows to [i + 1] slots, the new slots before [i]
    being holes; a negative [i] names an ordinary property of the object,
    not an element, so the slots and the length are untouched. *)
Definition set (a : list (option A)) (i : Z) (v : option A) : list (option A) :=
  if decide (i < 0) then a
  else if decide (i < length a) then <[Z.to_nat i := v]> a
  else (a ++ replicate (Z.to_nat i - List.length a) None ++ [v])%list.

(** [[...a]]: a fresh array with the same slots. *)
Definition spread (a : list (option A)) : list (option A) := a.

(** The elements that are present, in order. *)
Definition present (a : list (option A)) : list A := omap id a.

End Slots.

End JSArray.

(** ** The data model ([Scene] and [MovieScript] interfaces) *)

Module Scene.
Record t := mk {
  id : option string;      (* [id?: string] *)
  title : string;
  description : string;
  dialogue : string;
  imagePrompt : string
}.

(** [{ ...scene, id: v }] *)
Definition with_id (v : string) (s : t) : t :=
  mk (Some v) (title s) (description s) (dialogue s) (imagePrompt s).
End Scene.

Module MovieScript.
Record t := mk {
  title : string;
  genre : string;
  scenes : list (option Scene.t)
}.

(** [{ ...script, scenes: v }] *)
Definition with_scenes (v : list (option Scene.t)) (s : t) : t :=
  mk (title s) (genre s) v.
End MovieScript.

Inductive Direction := up | down.

(** ** The Scene Store: the updaters that [App] passes to [setMovieScript] *)

(** [handleUpdateScene(index, updatedScene)], the function of
    [currentScript] given to [setMovieScript]. *)
Definition handleUpdateScene (index : Z) (updatedScene : Scene.t)
    (currentScript : option MovieScript.t) : option MovieScript.t :=
  match currentScript with
  | None => None
  | Some cs =>
      let newScenes := JSArray.spread (MovieScript.scenes cs) in
      let newScenes := JSArray.set newScenes index (Some updatedScene) in
      Some (MovieScript.with_scenes newScenes cs)
  end.

(** [direction === 'up' ? index - 1 : index + 1] *)
Definition targetIndex (index : Z) (direction : Direction) : Z :=
  match direction with up => index - 1 | down => index + 1 end.

(** [handleReorderScene(index, direction)]. The destructuring assignment
    [[scenes[index], scenes[targetIndex]] = [scenes[targetIndex], scenes[index]]]
    reads both slots first and then writes [scenes[index]] and
    [scenes[targetIndex]], in that order. *)
Definition handleReorderScene (index : Z) (direction : Direction)
    (currentScript : option MovieScript.t) : option MovieScript.t :=
  match currentScript with
  | None => None
  | Some cs =>
      let scenes := JSArray.spread (MovieScript.scenes cs) in
      let target := targetIndex index direction in
      if decide (target < 0 \/ target >= JSArray.length scenes) then Some cs
      else
        let fromTarget := JSArray.get scenes target in
        let fromIndex := JSArray.get scenes index in
        let scenes := JSArray.set scenes index fromTarget in
        let scenes := JSArray.set scenes target fromIndex in
        Some (MovieScript.with_scenes scenes cs)
  end.

(** The identifiers of the scenes of a script, in order. *)
Definition scene_ids (s : MovieScript.t) : list (option string) :=
  Scene.id <$> JSArray.present (MovieScript.scenes s).

(** Every slot of the array holds a scene (what [Scene[]] promises). *)
Definition all_present {A} (a : list (option A)) : Prop :=
  Forall is_Some a.

(** ** JavaScript strings and errors *)

Module JS.

(** [new Error(message)] *)
Inductive Error := mkError (message : string).

Definition message (e : Error) : string := let 'mkError m := e in m.

(** The double quote and the line feed, as one-character strings. *)
Definition dquote : string := String (ascii_of_nat 34) EmptyString.
Definition lf : string := String (ascii_of_nat 10) EmptyString.

(** [c.charCodeAt(0)] of a one-character string. *)
Definition charCode (c : ascii) : Z := Z.of_N (N_of_ascii c).

(** [s.split('')]: the characters of [s], in order. *)
Definition split_chars (s : string) : list ascii := list_ascii_of_string s.

(** White space of [String.prototype.trim] among the code units 0..255:
    TAB, LF, VT, FF, CR, SPACE and NBSP. *)
Definition is_trim_space (c : ascii) : bool :=
  let n := N_of_ascii c in
  ((9 <=? n) && (n <=? 13) || (n =? 32) || (n =? 160))%N.

Fixpoint trimStart (s : string) : string :=
  match s with
  | String c r => if is_trim_space c then trimStart r else s
  | EmptyString => EmptyString
  end.

Definition reverse (s : string) : string :=
  string_of_list_ascii (List.rev (list_ascii_of_string s)).

(** [s.trim()] *)
Definition trim (s : string) : string := reverse (trimStart (reverse (trimStart s))).

(** A string in a condition: the empty string is falsy. *)
Definition truthy (s : string) : bool := negb (String.eqb s "").

(** [s.startsWith(p)] *)
Definition startsWith (s p : string) : bool := String.prefix p s.

(** A template-literal substitution of an integer number: the decimal digits, with a leading minus
    sign when negative. *)
Definition numberToString (n : Z) : string := pretty n.

(** The code units of a string, in order. *)
Definition units (s : string) : list N := N_of_ascii <$> list_ascii_of_string s.

End JS.

(** ** [JSON.parse]

    The values that [JSON.parse] builds and a reader of JSON texts: objects,
    arrays, strings with their escape sequences, numbers and the three
    literals, with white space between the tokens. A number is kept as its
    lexeme. A string value, and a key, is the list of its code units: a
    character of the text is its own code unit, and a [\u] escape is the
    code unit of its four hexadecimal digits, whichever it is. [None] is a
    [SyntaxError]. *)

Module JSON.

#[local] Unset Elimination Schemes.
Inductive value :=
| Null
| Bool (b : bool)
| Number (lexeme : string)
| Str (s : list N)
| Arr (elements : list value)
| Obj (members : list (list N * value)).
#[local] Set Elimination Schemes.

(** [obj[key]]: of several members with one key the last one counts. *)
Fixpoint member (key : list N) (members : list (list N * value)) : option value :=
  match members with
  | [] => None
  | (k, v) :: rest =>
      match member key rest with
      | Some v' => Some v'
      | None => if bool_decide (k = key) then Some v else None
      end
  end.

(** [obj.key] for a key written in the program. *)
Definition field (key : string) (members : list (list N * value)) : option value :=
  member (JS.units key) members.

(** The members without those of a key. *)
Fixpoint remove (key : list N) (members : list (list N * value)) : list (list N * value) :=
  match members with
  | [] => []
  | (k, x) :: rest =>
      if bool_decide (k = key) then remove key rest else (k, x) :: remove key rest
  end.

(** [obj[key] = v] on the members of an object: the value of an existing
    key is replaced where the key is, a new key comes last. *)
Fixpoint put (key : list N) (v : value) (members : list (list N * value))
    : list (list N * value) :=
  match members with
  | [] => [(key, v)]
  | (k, x) :: rest =>
      if bool_decide (k = key) then (k, v) :: remove key rest
      else (k, x) :: put key v rest
  end.

Definition is_ws (c : ascii) : bool :=
  let n := N_of_ascii c in ((n =? 32) || (n =? 9) || (n =? 10) || (n =? 13))%N.

Fixpoint skip_ws (s : string) : string :=
  match s with
  | String c r => if is_ws c then skip_ws r else s
  | EmptyString => EmptyString
  end.

(** [strip_prefix p s]: the rest of [s] after its prefix [p]. *)
Fixpoint strip_prefix (p s : string) : option string :=
  match p, s with
  | EmptyString, _ => Some s
  | String a p', String b s' => if Ascii.eqb a b then strip_prefix p' s' else None
  | String _ _, EmptyString => None
  end.

Definition is_digit (c : ascii) : bool :=
  let n := N_of_ascii c in ((48 <=? n) && (n <=? 57))%N.

Fixpoint take_digits (s : string) : string * string :=
  match s with
  | String c r =>
      if is_digit c then let '(ds, r') := take_digits r in (String c ds, r')
      else (EmptyString, s)
  | EmptyString => (EmptyString, EmptyString)
  end.

Definition hex_digit (c : ascii) : option N :=
  let n := N_of_ascii c in
  if ((48 <=? n) && (n <=? 57))%N then Some (n - 48)%N
  else if ((65 <=? n) && (n <=? 70))%N then Some (n - 55)%N
  else if ((97 <=? n) && (n <=? 102))%N then Some (n - 87)%N
  else None.

(** The code unit that a backslash and the character [c] denote, for the
    one-character escapes. *)
Definition simple_escape (c : ascii) : option N :=
  let n := N_of_ascii c in
  if (n =? 34)%N then Some n                 (* quote *)
  else if (n =? 92)%N then Some n            (* backslash *)
  else if (n =? 47)%N then Some n            (* slash *)
  else if (n =? 98)%N then Some 8%N          (* b *)
  else if (n =? 102)%N then Some 12%N        (* f *)
  else if (n =? 110)%N then Some 10%N        (* n *)
  else if (n =? 114)%N then Some 13%N        (* r *)
  else if (n =? 116)%N then Some 9%N         (* t *)
  else None.

(** The characters of a string literal after its opening quote, up to the
    closing quote: the string and the rest of the text. *)
Fixpoint string_body (s : string) : option (list N * string) :=
  match s with
  | EmptyString => None
  | String c r =>
      let n := N_of_ascii c in
      if (n =? 34)%N then Some ([], r)
      else if (n =? 92)%N then
        match r with
        | String e r1 =>
            if (N_of_ascii e =? 117)%N then
              match r1 with
              | String h1 (String h2 (String h3 (String h4 r2))) =>
                  match hex_digit h1, hex_digit h2, hex_digit h3, hex_digit h4 with
                  | Some d1, Some d2, Some d3, Some d4 =>
                      let code := (((d1 * 16 + d2) * 16 + d3) * 16 + d4)%N in
                      match string_body r2 with
                      | Some (str, rest) => Some (code :: str, rest)
                      | None => None
                      end
                  | _, _, _, _ => None
                  end
              | _ => None
              end
            else
              match simple_escape e with
              | Some c' =>
                  match string_body r1 with
                  | Some (str, rest) => Some (c' :: str, rest)
                  | None => None
                  end
              | None => None
              end
        | EmptyString => None
        end
      else if (n <? 32)%N then None
      else
        match string_body r with
        | Some (str, rest) => Some (n :: str, rest)
        | None => None
        end
  end.

(** A number lexeme: an optional minus sign, an integer part without a
    leading zero (or a lone zero), an optional fraction (a dot and digits)
    and an optional exponent (e or E, an optional sign, digits). *)
Definition number (s : string) : option (string * string) :=
  let '(sign, s1) :=
    match s with
    | String c r => if (N_of_ascii c =? 45)%N then (String c EmptyString, r) else (EmptyString, s)
    | EmptyString => (EmptyString, s)
    end in
  let '(int, s2) := take_digits s1 in
  let int_ok :=
    match int with
    | EmptyString => false
    | String c EmptyString => true
    | String c _ => negb (N_of_ascii c =? 48)%N
    end in
  if negb int_ok then None
  else
    let frac :=
      match s2 with
      | String c r =>
          if (N_of_ascii c =? 46)%N then
            let '(ds, r') := take_digits r in
            match ds with
            | EmptyString => None
            | _ => Some (String c ds, r')
            end
          else Some (EmptyString, s2)
      | EmptyString => Some (EmptyString, s2)
      end in
    match frac with
    | None => None
    | Some (fr, s3) =>
        let exp :=
          match s3 with
          | String c r =>
              if ((N_of_ascii c =? 101) || (N_of_ascii c =? 69))%N then
                let '(sg, r1) :=
                  match r with
                  | String c' r' =>
                      if ((N_of_ascii c' =? 43) || (N_of_ascii c' =? 45))%N
                      then (String c' EmptyString, r') else (EmptyString, r)
                  | EmptyString => (EmptyString, r)
                  end in
                let '(ds, r2) := take_digits r1 in
                match ds with
                | EmptyString => None
                | _ => Some (String c (sg ++ ds), r2)
                end
              else Some (EmptyString, s3)
          | EmptyString => Some (EmptyString, s3)
          end in
        match exp with
        | None => None
        | Some (ex, s4) => Some (sign ++ int ++ fr ++ ex, s4)
        end
    end.

(** A value, the elements of an array after its bracket, and the members
    of an object after its brace; [n] bounds the number of nested calls. The
    elements read so far are in [acc] in reverse, the members in order, a
    key that comes again taking the new value. *)
Fixpoint parse_value (n : nat) (s : string) : option (value * string) :=
  match n with
  | O => None
  | S n =>
      match skip_ws s with
      | EmptyString => None
      | String c r =>
          let k := N_of_ascii c in
          if (k =? 123)%N then
            match skip_ws r with
            | String c' r' =>
                if (N_of_ascii c' =? 125)%N then Some (Obj [], r')
                else parse_members n (String c' r') []
            | EmptyString => None
            end
          else if (k =? 91)%N then
            match skip_ws r with
            | String c' r' =>
                if (N_of_ascii c' =? 93)%N then Some (Arr [], r')
                else parse_elements n (String c' r') []
            | EmptyString => None
            end
          else if (k =? 34)%N then
            match string_body r with
            | Some (str, rest) => Some (Str str, rest)
            | None => None
            end
          else if (k =? 116)%N then
            match strip_prefix "rue" r with Some rest => Some (Bool true, rest) | None => None end
          else if (k =? 102)%N then
            match strip_prefix "alse" r with Some rest => Some (Bool false, rest) | None => None end
          else if (k =? 110)%N then
            match strip_prefix "ull" r with Some rest => Some (Null, rest) | None => None end
          else
            match number (String c r) with
            | Some (lex, rest) => Some (Number lex, rest)
            | None => None
            end
      end
  end
with parse_elements (n : nat) (s : string) (acc : list value) : option (value * string) :=
  match n with
  | O => None
  | S n =>
      match parse_value n s with
      | None => None
      | Some (v, r) =>
          match skip_ws r with
          | String c r' =>
              if (N_of_ascii c =? 44)%N then parse_elements n r' (v :: acc)
              else if (N_of_ascii c =? 93)%N then Some (Arr (List.rev (v :: acc)), r')
              else None
          | EmptyString => None
          end
      end
  end
with parse_members (n : nat) (s : string) (acc : list (list N * value)) : option (value * string) :=
  match n with
  | O => None
  | S n =>
      match skip_ws s with
      | String q r =>
          if (N_of_ascii q =? 34)%N then
            match string_body r with
            | None => None
            | Some (key, r1) =>
                match skip_ws r1 with
                | String c r2 =>
                    if (N_of_ascii c =? 58)%N then
                      match parse_value n r2 with
                      | None => None
                      | Some (v, r3) =>
                          match skip_ws r3 with
                          | String c' r4 =>
                              if (N_of_ascii c' =? 44)%N then parse_members n r4 (put key v acc)
                              else if (N_of_ascii c' =? 125)%N
                              then Some (Obj (put key v acc), r4)
                              else None
                          | EmptyString => None
                          end
                      end
                    else None
                | EmptyString => None
                end
            end
          else None
      | EmptyString => None
      end
  end.

(** [JSON.parse(text)]: one value, and nothing but white space after it. *)
Definition parse (text : string) : option value :=
  match parse_value (2 * String.length text + 2) text with
  | Some (v, rest) =>
      match skip_ws rest with
      | EmptyString => Some v
      | String _ _ => None
      end
  | None => None
  end.

End JSON.

(** ** Effects: traces and state

    What a function does to the outside is a list of events in program
    order; a handler of a component also reads and writes the state cells of
    that component. *)

Inductive Event :=
| GenerateContent (model prompt : string)   (* [ai.models.generateContent(...)] is called *)
| ConsoleError (label : string) (e : JS.Error) (* [console.error(...)] *)
| GenerateMovieScript (idea : string)       (* the Shell calls the Script Client *)
| OnUpdateScene (updatedScene : Scene.t)    (* a card calls [onUpdateScene] *)
| OnReorderScene (index : Z) (direction : Direction). (* a card calls [onReorderScene] *)

(** How an awaited promise settles. *)
Inductive Settled (A : Type) :=
| Rejected (e : JS.Error)
| Fulfilled (a : A).
Arguments Rejected {A} e.
Arguments Fulfilled {A} a.

(** A handler over the state [S]: a result, the new state and the trace. *)
Definition Act (S A : Type) : Type := S -> A * S * list Event.

#[global] Instance Act_ret {S} : MRet (Act S) :=
  fun A a st => (a, st, []).
#[global] Instance Act_bind {S} : MBind (Act S) :=
  fun A B f m st =>
    let '(a, st1, tr1) := m st in
    let '(b, st2, tr2) := f a st1 in
    (b, st2, (tr1 ++ tr2)%list).

Definition get {S} : Act S S := fun st => (st, st, []).
Definition modify {S} (f : S -> S) : Act S unit := fun st => (tt, f st, []).
Definition emit {S} (e : Event) : Act S unit := fun st => (tt, st, [e]).
Definition emit_all {S} (tr : list Event) : Act S unit := fun st => (tt, st, tr).

Definition trace_of {S A} (r : A * S * list Event) : list Event := r.2.
Definition state_of {S A} (r : A * S * list Event) : S := r.1.2.

(** ** The Gemini service: the Script Client and the Image Client *)

Module Service.

(** What [generateMovieScript] reads of the response: [response.text]. *)
Record TextResponse := { text : option string }.

(** What [generateImage] reads of the response:
    [response.candidates[0].content.parts], each part with an optional
    [inlineData], which carries its [data] (base64 text) when it is there. *)
Record Blob := { mimeType : string; data : string }.
Record Part := { partText : option string; inlineData : option Blob }.
Record Content := { parts : option (list Part) }.
Record Candidate := { content : option Content }.
Record ImageResponse := { candidates : option (list Candidate) }.

(** The template literal of [generateMovieScript]. *)
Definition scriptPrompt (idea : string) : string :=
  JS.lf ++
  "    Based on the following movie idea, generate a compelling movie script structure." ++ JS.lf ++
  "    The script should include a title, genre, and a series of 5 to 7 scenes that outline a clear narrative arc (beginning, middle, and end)." ++ JS.lf ++
  "    For each scene, provide a title, a detailed description, a line of key dialogue, and a descriptive prompt for an AI image generator to create a representative image." ++ JS.lf ++
  JS.lf ++
  "    Movie Idea: " ++ JS.dquote ++ idea ++ JS.dquote ++ JS.lf ++
  JS.lf ++
  "    Please format the output as a JSON object that strictly adheres to the provided schema." ++ JS.lf ++
  "  ".

(** The body of the [try] of [generateMovieScript], after the call has
    settled: [inl] is the exception thrown in it. *)
Definition generateMovieScript_try (upstream : Settled TextResponse) : JS.Error + JSON.value :=
  match upstream with
  | Rejected e => inl e
  | Fulfilled response =>
      match text response with
      | None => inl (JS.mkError "API returned an empty response.")
      | Some jsonText =>
          if negb (JS.truthy jsonText) then inl (JS.mkError "API returned an empty response.")
          else
            match JSON.parse jsonText with
            | None => inl (JS.mkError "SyntaxError")
            | Some parsedScript => inr parsedScript
            end
      end
  end.

(** [generateMovieScript(idea)]: the trace and the outcome of the promise.
    The annotation [: MovieScript] on the parsed value is erased at run
    time: what is returned is the value that [JSON.parse] built. *)
Definition generateMovieScript (idea : string) (upstream : Settled TextResponse)
    : list Event * (JS.Error + JSON.value) :=
  let call := GenerateContent "gemini-2.5-flash" (scriptPrompt idea) in
  match generateMovieScript_try upstream with
  | inr parsedScript => ([call], inr parsedScript)
  | inl error =>
      ([call; ConsoleError "Error generating movie script:" error],
       inl (JS.mkError "Failed to communicate with the Gemini API."))
  end.

(** The [for] loop of [generateImage]: the data of the first part that has
    an [inlineData]. *)
Fixpoint firstInlineData (ps : list Part) : option string :=
  match ps with
  | [] => None
  | part :: rest =>
      match inlineData part with
      | Some blob => Some (data blob)
      | None => firstInlineData rest
      end
  end.

(** [response.candidates[0].content.parts]: [None] when a link of the
    chain is missing, where the evaluation throws a [TypeError]. *)
Definition firstCandidateParts (response : ImageResponse) : option (list Part) :=
  match candidates response with
  | Some (candidate :: _) =>
      match content candidate with
      | Some c => parts c
      | None => None
      end
  | _ => None
  end.

Definition generateImage_try (upstream : Settled ImageResponse) : JS.Error + string :=
  match upstream with
  | Rejected e => inl e
  | Fulfilled response =>
      match firstCandidateParts response with
      | None => inl (JS.mkError "TypeError")
      | Some ps =>
          match firstInlineData ps with
          | Some d => inr d
          | None => inl (JS.mkError "No image data found in the response.")
          end
      end
  end.

(** [generateImage(prompt)] *)
Definition generateImage (prompt : string) (upstream : Settled ImageResponse)
    : list Event * (JS.Error + string) :=
  let call := GenerateContent "gemini-2.5-flash-image" prompt in
  match generateImage_try upstream with
  | inr d => ([call], inr d)
  | inl error =>
      ([call; ConsoleError "Error generating image:" error],
       inl (JS.mkError "Failed to generate image with the Gemini API."))
  end.

End Service.

(** ** The Application Shell ([App]) *)

Module App.

Record State := mk {
  idea : string;
  movieScript : option MovieScript.t;
  isLoading : bool;
  error : option string;
  saveTrigger : Z
}.

(** The initial values of the [useState] cells. *)
Definition init : State := mk "" None false None 0.

Definition setIdea (v : string) : Act State unit :=
  modify (fun st => mk v (movieScript st) (isLoading st) (error st) (saveTrigger st)).
(** [setMovieScript] with an updater function; a plain value is the
    constant updater. *)
Definition setMovieScript (f : option MovieScript.t -> option MovieScript.t) : Act State unit :=
  modify (fun st => mk (idea st) (f (movieScript st)) (isLoading st) (error st) (saveTrigger st)).
Definition setIsLoading (v : bool) : Act State unit :=
  modify (fun st => mk (idea st) (movieScript st) v (error st) (saveTrigger st)).
Definition setError (v : option string) : Act State unit :=
  modify (fun st => mk (idea st) (movieScript st) (isLoading st) v (saveTrigger st)).
Definition setSaveTrigger (f : Z -> Z) : Act State unit :=
  modify (fun st => mk (idea st) (movieScript st) (isLoading st) (error st) (f (saveTrigger st))).

(** [script.scenes.map(scene => ({ ...scene, id: self.crypto.randomUUID() }))]:
    [randomUUID k] is the value of the [k]-th call of [randomUUID]; [map]
    does not call its function on a hole. *)
Fixpoint scenesWithIds (randomUUID : nat -> string) (k : nat)
    (scenes : list (option Scene.t)) : list (option Scene.t) :=
  match scenes with
  | [] => []
  | Some scene :: rest =>
      Some (Scene.with_id (randomUUID k) scene) :: scenesWithIds randomUUID (S k) rest
  | None :: rest => None :: scenesWithIds randomUUID k rest
  end.

(** [handleGenerateScript] up to its [await]: [Some idea] when the Script
    Client is to be called with [idea], [None] when the handler returned. *)
Definition handleGenerateScript_start : Act State (option string) :=
  st ← get;
  if negb (JS.truthy (JS.trim (idea st))) then
    setError (Some "Please enter a movie idea.");;
    mret None
  else
    setIsLoading true;;
    setError None;;
    setMovieScript (fun _ => None);;
    mret (Some (idea st)).

(** [handleGenerateScript] from the settlement of the awaited promise on:
    the rest of the [try], the [catch] and the [finally]. *)
Definition handleGenerateScript_resume (randomUUID : nat -> string)
    (settled : Settled MovieScript.t) : Act State unit :=
  match settled with
  | Fulfilled script =>
      let withIds := scenesWithIds randomUUID 0 (MovieScript.scenes script) in
      setMovieScript (fun _ => Some (MovieScript.with_scenes withIds script))
  | Rejected err =>
      setError (Some "Failed to generate script. Please check your API key and try again.");;
      emit (ConsoleError "" err)
  end;;
  setIsLoading false.

(** [handleGenerateScript], given how the promise of the Script Client
    settles (at its declared type, [Promise<MovieScript>]). *)
Definition handleGenerateScript (randomUUID : nat -> string)
    (settled : Settled MovieScript.t) : Act State unit :=
  call ← handleGenerateScript_start;
  match call with
  | None => mret tt
  | Some i =>
      emit (GenerateMovieScript i);;
      handleGenerateScript_resume randomUUID settled
  end.

(** [handleUpdateScene], [handleReorderScene] and [handleSaveAll] as
    handlers of the Shell. *)
Definition onUpdateScene (index : Z) (updatedScene : Scene.t) : Act State unit :=
  setMovieScript (handleUpdateScene index updatedScene).
Definition onReorderScene (index : Z) (direction : Direction) : Act State unit :=
  setMovieScript (handleReorderScene index direction).
Definition handleSaveAll : Act State unit :=
  setSaveTrigger (fun c => c + 1).

End App.

(** ** The generation on the value that the client resolves with

    [handleGenerateScript] once more, now on whatever value the promise of
    the Script Client resolves with (the type [MovieScript] is not checked
    at run time), and with every call of a setter in the trace. The script
    of the Shell is here the JavaScript value itself. *)

Module AppJS.

Record State := mk {
  idea : string;
  movieScript : option JSON.value;
  isLoading : bool;
  error : option string;
  saveTrigger : Z
}.

(** What the handler does, in program order. *)
Inductive Effect :=
| SetIsLoading (v : bool)
| SetError (v : option string)
| SetMovieScript (v : option JSON.value)
| CallGenerateMovieScript (idea : string)
| LogError (e : JS.Error).

(** A setter writes its cell; a call and a log write nothing. *)
Definition write (st : State) (e : Effect) : State :=
  match e with
  | SetIsLoading v => mk (idea st) (movieScript st) v (error st) (saveTrigger st)
  | SetError v => mk (idea st) (movieScript st) (isLoading st) v (saveTrigger st)
  | SetMovieScript v => mk (idea st) v (isLoading st) (error st) (saveTrigger st)
  | CallGenerateMovieScript _ | LogError _ => st
  end.

Definition replay (st : State) (effects : list Effect) : State :=
  fold_left write effects st.

(** [{ ...v }]: the own enumerable properties of a value. Those of an
    object are its members; those of an array and of a string are the
    indices, with the elements and the characters; [null], a boolean and a
    number have none. *)
Definition spread (v : JSON.value) : list (list N * JSON.value) :=
  match v with
  | JSON.Obj ms => ms
  | JSON.Arr xs => imap (fun i x => (JS.units (pretty i), x)) xs
  | JSON.Str cs => imap (fun i c => (JS.units (pretty i), JSON.Str [c])) cs
  | _ => []
  end.

(** [{ ...scene, id: id }] *)
Definition withId (id : string) (scene : JSON.value) : JSON.value :=
  JSON.Obj (JSON.put (JS.units "id") (JSON.Str (JS.units id)) (spread scene)).

(** [{ ...script, scenes: scenes }] *)
Definition withScenes (scenes : list JSON.value) (script : JSON.value) : JSON.value :=
  JSON.Obj (JSON.put (JS.units "scenes") (JSON.Arr scenes) (spread script)).

(** [script.scenes.map(f)] is there when [script] is an object whose
    [scenes] is an array; for every other value the expression throws a
    [TypeError]. *)
Definition scenesOf (script : JSON.value) : option (list JSON.value) :=
  match script with
  | JSON.Obj ms =>
      match JSON.field "scenes" ms with
      | Some (JSON.Arr scenes) => Some scenes
      | _ => None
      end
  | _ => None
  end.

(** The [try] after the [await], the [catch] and the [finally]. *)
Definition afterAwait (randomUUID : nat -> string) (settled : Settled JSON.value)
    : list Effect :=
  let failed (err : JS.Error) :=
    [SetError (Some "Failed to generate script. Please check your API key and try again.");
     LogError err] in
  (match settled with
   | Fulfilled script =>
       match scenesOf script with
       | Some scenes =>
           let scenesWithIds := imap (fun k scene => withId (randomUUID k) scene) scenes in
           [SetMovieScript (Some (withScenes scenesWithIds script))]
       | None => failed (JS.mkError "TypeError")
       end
   | Rejected err => failed err
   end ++ [SetIsLoading false])%list.

(** The effects of [handleGenerateScript], for the idea of the render. *)
Definition effects (randomUUID : nat -> string) (settled : Settled JSON.value)
    (idea : string) : list Effect :=
  if negb (JS.truthy (JS.trim idea)) then [SetError (Some "Please enter a movie idea.")]
  else
    ([SetIsLoading true; SetError None; SetMovieScript None; CallGenerateMovieScript idea]
     ++ afterAwait randomUUID settled)%list.

(** [handleGenerateScript]: the state after it and its effects. *)
Definition handleGenerateScript (randomUUID : nat -> string) (settled : Settled JSON.value)
    (st : State) : State * list Effect :=
  let es := effects randomUUID settled (idea st) in
  (replay st es, es).

Definition isCall (e : Effect) : Prop :=
  match e with CallGenerateMovieScript _ => True | _ => False end.

End AppJS.

(** ** Values at the declared types

    The reading of a value at the interfaces [Scene] and [MovieScript]: an
    object with the string members of the interface, the strings being in
    the range of the strings of the model. *)

Module Typed.

Definition asString (cs : list N) : option string :=
  if forallb (fun c => (c <? 256)%N) cs
  then Some (string_of_list_ascii (ascii_of_N <$> cs)) else None.

Definition stringField (key : string) (ms : list (list N * JSON.value)) : option string :=
  match JSON.field key ms with
  | Some (JSON.Str cs) => asString cs
  | _ => None
  end.

(** [id?: string] *)
Definition optionalStringField (key : string) (ms : list (list N * JSON.value))
    : option (option string) :=
  match JSON.field key ms with
  | None => Some None
  | Some (JSON.Str cs) => Some <$> asString cs
  | Some _ => None
  end.

Definition asScene (v : JSON.value) : option Scene.t :=
  match v with
  | JSON.Obj ms =>
      id ← optionalStringField "id" ms;
      title ← stringField "title" ms;
      description ← stringField "description" ms;
      dialogue ← stringField "dialogue" ms;
      imagePrompt ← stringField "imagePrompt" ms;
      Some (Scene.mk id title description dialogue imagePrompt)
  | _ => None
  end.

Definition asMovieScript (v : JSON.value) : option MovieScript.t :=
  match v with
  | JSON.Obj ms =>
      title ← stringField "title" ms;
      genre ← stringField "genre" ms;
      match JSON.field "scenes" ms with
      | Some (JSON.Arr xs) =>
          scenes ← mapM asScene xs;
          Some (MovieScript.mk title genre (Some <$> scenes))
      | _ => None
      end
  | _ => None
  end.

(** The state of the Shell with its script read at [MovieScript]. *)
Definition asState (st : AppJS.State) : option App.State :=
  match AppJS.movieScript st with
  | None =>
      Some (App.mk (AppJS.idea st) None (AppJS.isLoading st) (AppJS.error st)
              (AppJS.saveTrigger st))
  | Some v =>
      script ← asMovieScript v;
      Some (App.mk (AppJS.idea st) (Some script) (AppJS.isLoading st) (AppJS.error st)
              (AppJS.saveTrigger st))
  end.

(** How the promise settles, read at [Promise<MovieScript>]. *)
Definition asSettled (settled : Settled JSON.value) : option (Settled MovieScript.t) :=
  match settled with
  | Rejected e => Some (Rejected e)
  | Fulfilled v => Fulfilled <$> asMovieScript v
  end.

End Typed.

(** ** The Scene View ([SceneCard]) *)

Module SceneCard.

(** The props that carry data; [onUpdateScene] and [onReorderScene] are
    the events [OnUpdateScene] and [OnReorderScene] of the trace. *)
Record Props := mkProps {
  scene : Scene.t;
  sceneNumber : Z;
  index : Z;
  saveTrigger : Z;
  isFirst : bool;
  isLast : bool;
  animationDelay : Z
}.

Record State := mk {
  isEditing : bool;
  editedScene : Scene.t;
  imageUrl : string;
  isGeneratingImage : bool;
  imageError : option string
}.

(** The initial values of the [useState] cells. *)
Definition init (p : Props) : State := mk false (scene p) "" false None.

Definition setIsEditing (v : bool) : Act State unit :=
  modify (fun st => mk v (editedScene st) (imageUrl st) (isGeneratingImage st) (imageError st)).
Definition setEditedScene (f : Scene.t -> Scene.t) : Act State unit :=
  modify (fun st => mk (isEditing st) (f (editedScene st)) (imageUrl st) (isGeneratingImage st) (imageError st)).
Definition setImageUrl (v : string) : Act State unit :=
  modify (fun st => mk (isEditing st) (editedScene st) v (isGeneratingImage st) (imageError st)).
Definition setIsGeneratingImage (v : bool) : Act State unit :=
  modify (fun st => mk (isEditing st) (editedScene st) (imageUrl st) v (imageError st)).
Definition setImageError (v : option string) : Act State unit :=
  modify (fun st => mk (isEditing st) (editedScene st) (imageUrl st) (isGeneratingImage st) v).

(** [imagePrompt.split('').reduce((acc, char) => acc + char.charCodeAt(0), 0) + sceneNumber] *)
Definition placeholderSeed (imagePrompt : string) (sceneNumber : Z) : Z :=
  fold_left (fun acc char => acc + JS.charCode char) (JS.split_chars imagePrompt) 0
  + sceneNumber.

(** [`https://picsum.photos/seed/${seed}/800/450`] *)
Definition placeholderUrl (seed : Z) : string :=
  "https://picsum.photos/seed/" ++ JS.numberToString seed ++ "/800/450".

(** The placeholder reference of a scene at a position. *)
Definition placeholder (imagePrompt : string) (sceneNumber : Z) : string :=
  placeholderUrl (placeholderSeed imagePrompt sceneNumber).

(** [`data:image/png;base64,${base64Data}`] *)
Definition dataUrl (base64Data : string) : string :=
  "data:image/png;base64," ++ base64Data.

(** The effect on [[scene, sceneNumber]]. *)
Definition sceneEffect (p : Props) : Act State unit :=
  setEditedScene (fun _ => scene p);;
  setImageUrl (placeholder (Scene.imagePrompt (scene p)) (sceneNumber p));;
  setIsGeneratingImage false;;
  setImageError None.

(** The [name] of the four inputs of the card. *)
Inductive Field := title | description | imagePrompt | dialogue.

(** [{ ...prev, [name]: value }] *)
Definition withField (name : Field) (value : string) (prev : Scene.t) : Scene.t :=
  match name with
  | title => Scene.mk (Scene.id prev) value (Scene.description prev) (Scene.dialogue prev) (Scene.imagePrompt prev)
  | description => Scene.mk (Scene.id prev) (Scene.title prev) value (Scene.dialogue prev) (Scene.imagePrompt prev)
  | dialogue => Scene.mk (Scene.id prev) (Scene.title prev) (Scene.description prev) value (Scene.imagePrompt prev)
  | imagePrompt => Scene.mk (Scene.id prev) (Scene.title prev) (Scene.description prev) (Scene.dialogue prev) value
  end.

Definition handleInputChange (name : Field) (value : string) : Act State unit :=
  setEditedScene (withField name value).

(** [triggerImageGeneration(prompt)], given how the call of the network
    settles. The fallback of the [catch] uses the [scene] and the
    [sceneNumber] of the props. *)
Definition triggerImageGeneration (p : Props) (prompt : string)
    (upstream : Settled Service.ImageResponse) : Act State unit :=
  setIsGeneratingImage true;;
  setImageError None;;
  let '(tr, settled) := Service.generateImage prompt upstream in
  emit_all tr;;
  match settled with
  | inr base64Data => setImageUrl (dataUrl base64Data)
  | inl error =>
      setImageError (Some "Oops! The image could not be generated.");;
      emit (ConsoleError "" error);;
      setImageUrl (placeholder (Scene.imagePrompt (scene p)) (sceneNumber p))
  end;;
  setIsGeneratingImage false.

(** The condition of [handleSave]. *)
Definition needsImage (p : Props) (st : State) : bool :=
  negb (String.eqb (Scene.imagePrompt (editedScene st)) (Scene.imagePrompt (scene p)))
  || JS.startsWith (imageUrl st) "https://picsum.photos".

(** [handleSave]: [editedScene] and [imageUrl] are those of the render
    that created the callback. *)
Definition handleSave (p : Props) (upstream : Settled Service.ImageResponse) : Act State unit :=
  st ← get;
  (if needsImage p st
   then triggerImageGeneration p (Scene.imagePrompt (editedScene st)) upstream
   else mret tt);;
  emit (OnUpdateScene (editedScene st));;
  setIsEditing false.

Definition handleCancel (p : Props) : Act State unit :=
  setEditedScene (fun _ => scene p);;
  setIsEditing false.

Definition handleRetryGeneration (p : Props) (upstream : Settled Service.ImageResponse)
    : Act State unit :=
  triggerImageGeneration p (Scene.imagePrompt (scene p)) upstream.

(** The body of the effect on [[saveTrigger, isEditing, handleSave]]. *)
Definition saveTriggerEffect (p : Props) (upstream : Settled Service.ImageResponse)
    : Act State unit :=
  st ← get;
  if (saveTrigger p >? 0) && isEditing st then handleSave p upstream else mret tt.

(** [useEffect]: after a render, the effect runs when one of its
    dependencies differs from its value at the previous render. *)
Definition useEffect (depsDiffer : bool) (effect : Act State unit) : Act State unit :=
  if depsDiffer then effect else mret tt.

(** Whether [saveTrigger] or [isEditing], the first two dependencies of
    the save effect, differ between two renders. *)
Definition saveDepsDiffer (p1 : Props) (st1 : State) (p2 : Props) (st2 : State) : bool :=
  negb (saveTrigger p1 =? saveTrigger p2) || negb (Bool.eqb (isEditing st1) (isEditing st2)).

(** A click on "Edit Scene", which is rendered when the card is not
    editing: [setIsEditing(true)], then the render that follows and its
    effects, under unchanged props. *)
Definition clickEditScene (p : Props) (upstream : Settled Service.ImageResponse)
    : Act State unit :=
  before ← get;
  if isEditing before then mret tt
  else
    setIsEditing true;;
    after ← get;
    useEffect (saveDepsDiffer p before p after) (saveTriggerEffect p upstream).

(** The props that [App] gives to the card of the scene at [index] of
    [length] scenes. *)
Definition propsAt (saveTrigger : Z) (length index : Z) (scene : Scene.t) : Props :=
  mkProps scene (index + 1) index saveTrigger (index =? 0) (index =? length - 1) (index * 150).

(** The image requests of a trace: the prompts of the calls of the image
    model, in order. *)
Definition imageRequests (tr : list Event) : list string :=
  omap (fun e => match e with
                 | GenerateContent model prompt =>
                     if String.eqb model "gemini-2.5-flash-image" then Some prompt else None
                 | _ => None
                 end) tr.

(** The commits of a trace: the scenes given to [onUpdateScene], in order. *)
Definition commits (tr : list Event) : list Scene.t :=
  omap (fun e => match e with OnUpdateScene s => Some s | _ => None end) tr.

(** Where an image URL of a card comes from: the initial empty string, a
    placeholder, or the data of a generated image. *)
Inductive UrlOrigin : string -> Prop :=
| url_initial : UrlOrigin ""
| url_placeholder seed : UrlOrigin (placeholderUrl seed)
| url_generated base64Data : UrlOrigin (dataUrl base64Data).

Definition isPlaceholder (url : string) : Prop := exists seed, url = placeholderUrl seed.

End SceneCard.

(** ** Statements about the Scene Store *)

(** The drafts of a card: the committed scene after some field edits. *)
Definition applyEdits (edits : list (SceneCard.Field * string)) (committed : Scene.t) : Scene.t :=
  fold_left (fun draft e => SceneCard.withField e.1 e.2 draft) edits committed.

(** The identifier of the scene in a slot of the scenes of a script. *)
Definition identifierAt (cs : MovieScript.t) (i : Z) : option (option string) :=
  Scene.id <$> JSArray.get (MovieScript.scenes cs) i.

(** "[update(i, newScene)] leaves the identifier stored at index [i] as it
    was", for a script, an index of one of its scenes and a replacement. *)
Definition update_keeps_identifier (cs : MovieScript.t) (i : Z) (newScene : Scene.t) : Prop :=
  forall cs', handleUpdateScene i newScene (Some cs) = Some cs' ->
    identifierAt cs' i = identifierAt cs i.

(** ** Statements about the placeholder *)

(** The sum of the character codes of a string. *)
Fixpoint charCodeSum (s : string) : Z :=
  match s with
  | EmptyString => 0
  | String c r => JS.charCode c + charCodeSum r
  end.

(** "Changing either the imagePrompt or the position changes the
    reference." *)
Definition placeholder_changes_with_input : Prop :=
  forall prompt position prompt' position',
    prompt <> prompt' \/ position <> position' ->
    SceneCard.placeholder prompt position <> SceneCard.placeholder prompt' position'.

(** ** Statements about a save of a card *)

(** An event is an image request when it is a call of the image model. *)
Definition isImageRequest (e : Event) : bool :=
  match e with
  | GenerateContent model _ => String.eqb model "gemini-2.5-flash-image"
  | _ => false
  end.

Definition isCommit (e : Event) : bool :=
  match e with OnUpdateScene _ => true | _ => false end.

(** "In the trace, every commit comes before every image request." *)
Definition commits_precede_requests (tr : list Event) : Prop :=
  forall c k ec ek, tr !! c = Some ec -> tr !! k = Some ek ->
    isCommit ec = true -> isImageRequest ek = true -> (c < k)%nat.

(** "In the trace, every image request comes before every commit." *)
Definition requests_precede_commits (tr : list Event) : Prop :=
  forall c k ec ek, tr !! c = Some ec -> tr !! k = Some ek ->
    isCommit ec = true -> isImageRequest ek = true -> (k < c)%nat.

(** ** Statements about the Script Client *)

(** "Object with string title, genre, and a scenes array of objects each
    with string title, description, dialogue, imagePrompt." *)
Definition isStr (v : option JSON.value) : bool :=
  match v with Some (JSON.Str _) => true | _ => false end.

Definition sceneShape (v : JSON.value) : bool :=
  match v with
  | JSON.Obj ms =>
      isStr (JSON.field "title" ms) && isStr (JSON.field "description" ms)
      && isStr (JSON.field "dialogue" ms) && isStr (JSON.field "imagePrompt" ms)
  | _ => false
  end.

Definition requiredShape (v : JSON.value) : bool :=
  match v with
  | JSON.Obj ms =>
      isStr (JSON.field "title" ms) && isStr (JSON.field "genre" ms)
      && match JSON.field "scenes" ms with
         | Some (JSON.Arr scenes) => forallb sceneShape scenes
         | _ => false
         end
  | _ => false
  end.

(** "The idea is empty, the upstream call errors, or the upstream response
    is empty or not parseable as the required shape." *)
Definition scriptClientShouldFail (idea : string) (upstream : Settled Service.TextResponse) : Prop :=
  idea = ""
  \/ (exists e, upstream = Rejected e)
  \/ (exists response, upstream = Fulfilled response /\
        match Service.text response with
        | None => True
        | Some jsonText =>
            jsonText = "" \/
            ~ exists v, JSON.parse jsonText = Some v /\ requiredShape v = true
        end).

Definition fails {A} (outcome : JS.Error + A) : Prop := exists e, outcome = inl e.

(** "The Script Client fails exactly when it should." *)
Definition scriptClient_fails_exactly_when_it_should : Prop :=
  forall idea upstream,
    fails (Service.generateMovieScript idea upstream).2 <-> scriptClientShouldFail idea upstream.

(** What the code of the Script Client fails on: a call that errors, an
    absent or empty text, a text that is not JSON. *)
Definition scriptClientFailsOn (upstream : Settled Service.TextResponse) : Prop :=
  (exists e, upstream = Rejected e)
  \/ (exists response, upstream = Fulfilled response /\
        match Service.text response with
        | None => True
        | Some jsonText => jsonText = "" \/ JSON.parse jsonText = None
        end).

(** The response carries the parts [ps]: the call is fulfilled, by a
    response with at least one candidate, the first of which has a content
    with the list of parts [ps]. *)
Definition respondsWithParts (upstream : Settled Service.ImageResponse)
    (ps : list Service.Part) : Prop :=
  exists candidate others c,
    upstream = Fulfilled {| Service.candidates := Some (candidate :: others) |} /\
    Service.content candidate = Some c /\
    Service.parts c = Some ps.

Definition hasImage (part : Service.Part) : Prop := is_Some (Service.inlineData part).

(** ** Sample values *)

Module Sample.

(** A committed scene, the card of it at the second of three positions
    once its first effect has run, and that card with an edited
    imagePrompt. *)
Definition scene : Scene.t := Scene.mk (Some "id-b") "Title" "Description" "Dialogue" "ab".
Definition props (saveTrigger : Z) : SceneCard.Props := SceneCard.propsAt saveTrigger 3 1 scene.
Definition shown : SceneCard.State :=
  state_of (SceneCard.sceneEffect (props 0) (SceneCard.init (props 0))).
Definition editing : SceneCard.State :=
  state_of ((SceneCard.setIsEditing true;;
             SceneCard.handleInputChange SceneCard.imagePrompt "a new prompt") shown).

(** A response of the image model with a text part and an image part, and
    a failure of the network. *)
Definition imageResponse : Settled Service.ImageResponse :=
  Fulfilled
    {| Service.candidates := Some
         [{| Service.content := Some
               {| Service.parts := Some
                    [{| Service.partText := Some "Here is the image.";
                        Service.inlineData := None |};
                     {| Service.partText := None;
                        Service.inlineData :=
                          Some {| Service.mimeType := "image/png"; Service.data := "QUJD" |} |}]
               |} |}] |}.
Definition networkError {A} : Settled A := Rejected (JS.mkError "fetch failed").

(** JSON texts: a key or a string in quotes, a script of one scene, and an
    empty object. *)
Definition quoted (s : string) : string := JS.dquote ++ s ++ JS.dquote.
Definition scriptText : string :=
  "{" ++ quoted "title" ++ ":" ++ quoted "The Painter" ++ ","
      ++ quoted "genre" ++ ":" ++ quoted "Sci-Fi" ++ ","
      ++ quoted "scenes" ++ ":[{"
      ++ quoted "title" ++ ":" ++ quoted "First Light" ++ ","
      ++ quoted "description" ++ ":" ++ quoted "A robot finds a brush." ++ ","
      ++ quoted "dialogue" ++ ":" ++ quoted "R7: What is this for?" ++ ","
      ++ quoted "imagePrompt" ++ ":" ++ quoted "a robot holding a brush"
      ++ "}]}".
Definition str (s : string) : JSON.value := JSON.Str (JS.units s).
Definition scriptValue : JSON.value :=
  JSON.Obj [(JS.units "title", str "The Painter"); (JS.units "genre", str "Sci-Fi");
            (JS.units "scenes", JSON.Arr [JSON.Obj
               [(JS.units "title", str "First Light");
                (JS.units "description", str "A robot finds a brush.");
                (JS.units "dialogue", str "R7: What is this for?");
                (JS.units "imagePrompt", str "a robot holding a brush")]])].
Definition textResponse (t : string) : Settled Service.TextResponse :=
  Fulfilled {| Service.text := Some t |}.

(** A script of two scenes as the Script Client resolves it, without
    identifiers, a source of identifiers, and a Shell that shows an old
    script and an old error while the user has typed a new idea. *)
Definition generated : MovieScript.t :=
  MovieScript.mk "The Painter" "Sci-Fi"
    [Some (Scene.mk None "First Light" "A robot finds a brush." "R7: What is this for?"
             "a robot holding a brush");
     Some (Scene.mk None "Colour" "The robot paints a wall." "R7: Blue."
             "a robot painting a wall blue")].
Definition uuids (k : nat) : string := "uuid-" ++ pretty k.
Definition shell (idea : string) : App.State :=
  App.mk idea (Some (MovieScript.mk "Old" "Drama" [Some scene])) false (Some "old error") 2.

(** The same Shell with its script as a value. *)
Definition shellJS (idea : string) : AppJS.State :=
  AppJS.mk idea (Some (JSON.Obj [(JS.units "title", str "Old")])) false (Some "old error") 2.

End Sample.

(** ** The controls of a card, and a card over time

    A control acts when it is rendered and enabled. After a handler has
    changed a cell that [handleSave] depends on, the render that follows
    runs the save effect again. The actions of a card are taken one after
    the other, each one with its awaited call settled before the next. *)

Module Controls.

(** [imageError && !isGeneratingImage]: the overlay with the retry button. *)
Definition retryShown (st : SceneCard.State) : bool :=
  match SceneCard.imageError st with Some m => JS.truthy m | None => false end
  && negb (SceneCard.isGeneratingImage st).

(** The inputs are rendered when the card is editing; [editedScene] is a
    dependency of [handleSave]. *)
Definition typeInto (p : SceneCard.Props) (name : SceneCard.Field) (value : string)
    (upstream : Settled Service.ImageResponse) : Act SceneCard.State unit :=
  st ← get;
  if SceneCard.isEditing st then
    SceneCard.handleInputChange name value;;
    SceneCard.saveTriggerEffect p upstream
  else mret tt.

(** "Save" and "Cancel" are rendered when the card is editing and disabled
    while an image is generated. *)
Definition clickSave (p : SceneCard.Props) (upstream : Settled Service.ImageResponse)
    : Act SceneCard.State unit :=
  st ← get;
  if SceneCard.isEditing st && negb (SceneCard.isGeneratingImage st)
  then SceneCard.handleSave p upstream else mret tt.

Definition clickCancel (p : SceneCard.Props) : Act SceneCard.State unit :=
  st ← get;
  if SceneCard.isEditing st && negb (SceneCard.isGeneratingImage st)
  then SceneCard.handleCancel p else mret tt.

(** "Retry"; [imageUrl] is a dependency of [handleSave], [upstream'] is the
    answer to the call of a save that the effect starts. *)
Definition clickRetry (p : SceneCard.Props) (upstream upstream' : Settled Service.ImageResponse)
    : Act SceneCard.State unit :=
  st ← get;
  if retryShown st then
    SceneCard.handleRetryGeneration p upstream;;
    SceneCard.saveTriggerEffect p upstream'
  else mret tt.

(** The two arrows are rendered when the card is not editing; the first
    card has "up" disabled and the last one "down". *)
Definition clickMove (p : SceneCard.Props) (direction : Direction) : Act SceneCard.State unit :=
  st ← get;
  let disabled := match direction with up => SceneCard.isFirst p | down => SceneCard.isLast p end in
  if SceneCard.isEditing st || disabled then mret tt
  else emit (OnReorderScene (SceneCard.index p) direction).

(** The props of a card after "save all": the counter is one more. *)
Definition signalled (p : SceneCard.Props) : SceneCard.Props :=
  SceneCard.mkProps (SceneCard.scene p) (SceneCard.sceneNumber p) (SceneCard.index p)
    (SceneCard.saveTrigger p + 1) (SceneCard.isFirst p) (SceneCard.isLast p)
    (SceneCard.animationDelay p).

(** The render of a card under the props after "save all", the counter
    being the one dependency of the save effect that differs. *)
Definition saveSignal (p : SceneCard.Props) (upstream : Settled Service.ImageResponse)
    : Act SceneCard.State unit :=
  st ← get;
  SceneCard.useEffect (SceneCard.saveDepsDiffer p st (signalled p) st)
    (SceneCard.saveTriggerEffect (signalled p) upstream).

(** The render of a card under new props [p'] of the parent, for a card
    that is not in a save: the effect on [[scene, sceneNumber]] runs when
    the scene is another object ([newObject]) or the number differs. *)
Definition sceneChange (newObject : bool) (p p' : SceneCard.Props) : Act SceneCard.State unit :=
  SceneCard.useEffect
    (newObject || negb (SceneCard.sceneNumber p =? SceneCard.sceneNumber p'))
    (SceneCard.sceneEffect p').

Record Card := mkCard { props : SceneCard.Props; state : SceneCard.State }.

(** The first render of a card and its effects. *)
Definition mount (p : SceneCard.Props) : Card :=
  mkCard p (state_of (SceneCard.sceneEffect p (SceneCard.init p))).

Inductive Action :=
| SceneChange (newScene : option Scene.t) (length index : Z)
| SaveSignal (upstream : Settled Service.ImageResponse)
| ClickEdit (upstream : Settled Service.ImageResponse)
| TypeInto (name : SceneCard.Field) (value : string) (upstream : Settled Service.ImageResponse)
| ClickSave (upstream : Settled Service.ImageResponse)
| ClickCancel
| ClickRetry (upstream upstream' : Settled Service.ImageResponse)
| ClickMove (direction : Direction).

(** A card that is editing under a positive counter is in a save. *)
Definition inSave (c : Card) : bool :=
  (SceneCard.saveTrigger (props c) >? 0) && SceneCard.isEditing (state c).

Definition after (p' : SceneCard.Props) (r : unit * SceneCard.State * list Event)
    : option (Card * list Event) :=
  Some (mkCard p' (state_of r), trace_of r).

(** One action on a card: the card after it and what it sent. A change of
    the scene is [None] for a card in a save, where the two effects of one
    render would interleave; [newScene] is [None] when the scene is the
    object of before. *)
Definition perform (c : Card) (a : Action) : option (Card * list Event) :=
  let p := props c in
  let st := state c in
  match a with
  | SceneChange newScene length index =>
      if inSave c then None
      else
        let p' := SceneCard.propsAt (SceneCard.saveTrigger p) length index
                    (default (SceneCard.scene p) newScene) in
        after p' (sceneChange (bool_decide (is_Some newScene)) p p' st)
  | SaveSignal upstream => after (signalled p) (saveSignal p upstream st)
  | ClickEdit upstream => after p (SceneCard.clickEditScene p upstream st)
  | TypeInto name value upstream => after p (typeInto p name value upstream st)
  | ClickSave upstream => after p (clickSave p upstream st)
  | ClickCancel => after p (clickCancel p st)
  | ClickRetry upstream upstream' => after p (clickRetry p upstream upstream' st)
  | ClickMove direction => after p (clickMove p direction st)
  end.

(** The actions of a list, in order, with all that was sent. *)
Fixpoint run (c : Card) (actions : list Action) : option (Card * list Event) :=
  match actions with
  | [] => Some (c, [])
  | a :: rest =>
      match perform c a with
      | None => None
      | Some (c1, tr1) =>
          match run c1 rest with
          | None => None
          | Some (c2, tr2) => Some (c2, (tr1 ++ tr2)%list)
          end
      end
  end.

(** The scene changes of a list of actions keep the card on its key. *)
Definition keepsKey (key : option string) (a : Action) : Prop :=
  match a with
  | SceneChange (Some scene) _ _ => Scene.id scene = key
  | _ => True
  end.

End Controls.

(** ** The Shell over time *)

Module Shell.

(** The props of the card that [App] renders for the scene at [index]. *)
Definition cardProps (a : App.State) (index : Z) : option SceneCard.Props :=
  match App.movieScript a with
  | Some cs =>
      match JSArray.get (MovieScript.scenes cs) index with
      | Some scene =>
          Some (SceneCard.propsAt (App.saveTrigger a)
                  (JSArray.length (MovieScript.scenes cs)) index scene)
      | None => None
      end
  | None => None
  end.

(** What the Shell does with an event of the card that it rendered at
    [index]: [onUpdateScene] is the closure over that index, and
    [onReorderScene] is [handleReorderScene] itself. *)
Definition deliver (index : Z) (e : Event) : Act App.State unit :=
  match e with
  | OnUpdateScene updatedScene => App.onUpdateScene index updatedScene
  | OnReorderScene i direction => App.onReorderScene i direction
  | _ => mret tt
  end.

Fixpoint deliverAll (index : Z) (tr : list Event) : Act App.State unit :=
  match tr with
  | [] => mret tt
  | e :: rest => deliver index e;; deliverAll index rest
  end.

Inductive Action :=
| TypeIdea (value : string)
| ClickGenerate (randomUUID : nat -> string) (settled : Settled MovieScript.t)
| ClickSaveAll
| FromCard (index : Z) (e : Event).

(** "Generate Script" is disabled while loading; "Save All Edits" and the
    cards are rendered when there is a script. *)
Definition perform (a : Action) : Act App.State unit :=
  st ← get;
  match a with
  | TypeIdea value => App.setIdea value
  | ClickGenerate randomUUID settled =>
      if App.isLoading st then mret tt else App.handleGenerateScript randomUUID settled
  | ClickSaveAll =>
      match App.movieScript st with
      | Some _ => App.handleSaveAll
      | None => mret tt
      end
  | FromCard index e =>
      match App.movieScript st with
      | Some _ => deliver index e
      | None => mret tt
      end
  end.

Fixpoint run (actions : list Action) : Act App.State unit :=
  match actions with
  | [] => mret tt
  | a :: rest => perform a;; run rest
  end.

(** The two messages that the Shell shows. *)
Definition shownErrors : list (option string) :=
  [None; Some "Please enter a movie idea.";
   Some "Failed to generate script. Please check your API key and try again."].

End Shell.

(** ** Statements about a card over time *)

(** A card between two actions: it shows a placeholder or generated data,
    its error is none or the one message of the card, no image is being
    generated, the counter of the save signal is not negative, an editing
    card has the counter at zero, and the draft carries the identifier of
    the committed scene. *)
Definition cardSettled (c : Controls.Card) : Prop :=
  let p := Controls.props c in
  let st := Controls.state c in
  (SceneCard.isPlaceholder (SceneCard.imageUrl st)
   \/ exists base64Data, SceneCard.imageUrl st = SceneCard.dataUrl base64Data) /\
  (SceneCard.imageError st = None
   \/ SceneCard.imageError st = Some "Oops! The image could not be generated.") /\
  SceneCard.isGeneratingImage st = false /\
  0 <= SceneCard.saveTrigger p /\
  (SceneCard.isEditing st = true -> SceneCard.saveTrigger p = 0) /\
  Scene.id (SceneCard.editedScene st) = Scene.id (SceneCard.scene p).

(** The key of a card: the identifier of its scene. *)
Definition keyOf (c : Controls.Card) : option string :=
  Scene.id (SceneCard.scene (Controls.props c)).

(** ** A sample run of a card *)

Module SampleRun.

(** A session with a card: edit, type a new prompt, save; then the first
    "save all", and an attempt to edit again. *)
Definition session : list Controls.Action :=
  [Controls.ClickEdit Sample.imageResponse;
   Controls.TypeInto SceneCard.imagePrompt "a new prompt" Sample.imageResponse;
   Controls.ClickSave Sample.networkError;
   Controls.SceneChange
     (Some (Scene.mk (Some "id-b") "Title" "Description" "Dialogue" "a new prompt")) 3 1;
   Controls.SaveSignal Sample.imageResponse;
   Controls.ClickEdit Sample.imageResponse].

End SampleRun.

(** ** Statements about the Shell over time *)

(** The number of "save all" among the actions. *)
Fixpoint saveAllCount (actions : list Shell.Action) : Z :=
  match actions with
  | [] => 0
  | Shell.ClickSaveAll :: rest => 1 + saveAllCount rest
  | _ :: rest => saveAllCount rest
  end.

(** The Shell between two actions: it is not loading, its error is none or
    one of its two messages, and its counter is not negative. *)
Definition shellIdle (a : App.State) : Prop :=
  App.isLoading a = false /\ App.error a ∈ Shell.shownErrors /\ 0 <= App.saveTrigger a.

(** * Properties *)

(** Runs the binds of a handler applied to a state. *)
Ltac run_act :=
  unfold trace_of, state_of;
  cbv [mbind mret Act_bind Act_ret get modify emit emit_all];
  cbn [fst snd].

(** ** The readers of strings, on samples *)

Example trim_samples :
  JS.trim "  a b   " = "a b" /\ JS.trim "   " = "" /\ JS.trim "" = "".
Proof. by vm_compute. Qed.

Example numberToString_samples :
  JS.numberToString 1042 = "1042" /\ JS.numberToString 0 = "0"
  /\ JS.numberToString (-7) = "-7".
Proof. by vm_compute. Qed.

Example parse_script : JSON.parse Sample.scriptText = Some Sample.scriptValue.
Proof. by vm_compute. Qed.

Example parse_samples :
  JSON.parse "{}" = Some (JSON.Obj [])
  /\ JSON.parse " [1, -2.5e+3, true , null] "
     = Some (JSON.Arr [JSON.Number "1"; JSON.Number "-2.5e+3"; JSON.Bool true; JSON.Null])
  /\ JSON.parse "" = None
  /\ JSON.parse "{} x" = None
  /\ JSON.parse "[1,]" = None
  /\ JSON.parse "01" = None
  /\ JSON.parse "Sorry, I cannot help with that." = None.
Proof. by vm_compute. Qed.

(** Escapes: a [\u] escape of any code unit, also beyond 255, and the
    one-character escapes. *)
Example parse_escapes :
  JSON.parse (Sample.quoted "Price \u20ac5 \u00e9\n")
  = Some (JSON.Str [80; 114; 105; 99; 101; 32; 8364; 53; 32; 233; 10]%N)
  /\ JSON.parse (Sample.quoted "\ud83d\ude00") = Some (JSON.Str [55357; 56832]%N)
  /\ JSON.parse (Sample.quoted "\x41") = None
  /\ JSON.parse (Sample.quoted "\u12") = None.
Proof. by vm_compute. Qed.

(** A key that comes twice keeps its place and takes the last value. *)
Example parse_duplicate_key :
  JSON.parse ("{" ++ Sample.quoted "a" ++ ":1," ++ Sample.quoted "b" ++ ":2,"
                  ++ Sample.quoted "a" ++ ":3}")
  = Some (JSON.Obj [(JS.units "a", JSON.Number "3"); (JS.units "b", JSON.Number "2")]).
Proof. by vm_compute. Qed.

Example requiredShape_samples :
  requiredShape Sample.scriptValue = true /\ requiredShape (JSON.Obj []) = false.
Proof. by vm_compute. Qed.

(** ** Reads and writes of arrays *)

Section JSArrayFacts.
Context {A : Type}.
Implicit Types (a : list (option A)) (i j : Z) (v : option A).

Lemma JSArray_length_nonneg a : 0 <= JSArray.length a.
Proof. unfold JSArray.length. lia. Qed.

Lemma JSArray_get_outside a i : i < 0 \/ JSArray.length a <= i -> JSArray.get a i = None.
Proof.
  unfold JSArray.get, JSArray.length. intros H.
  destruct (decide (i < 0)) as [|Hi]; [done|].
  rewrite (lookup_ge_None_2 a (Z.to_nat i)) by lia. done.
Qed.

Lemma JSArray_length_set a i v :
  JSArray.length (JSArray.set a i v) =
  if decide (i < 0) then JSArray.length a else Z.max (JSArray.length a) (i + 1).
Proof.
  unfold JSArray.set. destruct (decide (i < 0)); [done|].
  destruct (decide (i < JSArray.length a)) as [Hlt|Hge]; unfold JSArray.length in *.
  - rewrite length_insert. lia.
  - rewrite !length_app, length_replicate. simpl. lia.
Qed.

Lemma JSArray_get_set_eq a i v : 0 <= i -> JSArray.get (JSArray.set a i v) i = v.
Proof.
  intros Hi. unfold JSArray.get, JSArray.set.
  destruct (decide (i < 0)); [lia|].
  destruct (decide (i < JSArray.length a)) as [Hlt|Hge]; unfold JSArray.length in *.
  - rewrite list_lookup_insert_eq by lia. done.
  - rewrite lookup_app_r by lia.
    rewrite lookup_app_r by (rewrite length_replicate; lia).
    rewrite length_replicate.
    replace (Z.to_nat i - length a - (Z.to_nat i - length a))%nat with 0%nat by lia.
    done.
Qed.

Lemma JSArray_get_set_ne a i j v : i <> j -> JSArray.get (JSArray.set a i v) j = JSArray.get a j.
Proof.
  intros Hne. unfold JSArray.get, JSArray.set.
  destruct (decide (j < 0)); [done|].
  destruct (decide (i < 0)); [done|].
  destruct (decide (i < JSArray.length a)) as [Hlt|Hge]; unfold JSArray.length in *.
  - rewrite list_lookup_insert_ne by lia. done.
  - destruct (decide (Z.to_nat j < length a)%nat) as [Hj|Hj].
    + rewrite lookup_app_l by lia. done.
    + rewrite (lookup_ge_None_2 a (Z.to_nat j)) by lia.
      rewrite lookup_app_r by lia.
      destruct (decide (Z.to_nat j - length a < Z.to_nat i - length a)%nat) as [Hk|Hk].
      * rewrite lookup_app_l by (rewrite length_replicate; lia).
        rewrite (proj2 (lookup_replicate _ None None _)) by (split; [done|lia]). done.
      * rewrite lookup_app_r by (rewrite length_replicate; lia).
        rewrite length_replicate.
        destruct (Z.to_nat j - length a - (Z.to_nat i - length a))%nat as [|k] eqn:Hk'; [lia|].
        done.
Qed.

(** Exchanging two slots of an array, both inside it, permutes it. *)
Lemma JSArray_swap_Permutation a i j :
  0 <= i < JSArray.length a -> 0 <= j < JSArray.length a ->
  JSArray.set (JSArray.set a i (JSArray.get a j)) j (JSArray.get a i) ≡ₚ a.
Proof.
  intros Hi Hj.
  assert (Hli : JSArray.length (JSArray.set a i (JSArray.get a j)) = JSArray.length a).
  { rewrite JSArray_length_set. destruct (decide (i < 0)); lia. }
  unfold JSArray.set at 1. rewrite Hli.
  destruct (decide (j < 0)); [lia|]. destruct (decide (j < JSArray.length a)); [|lia].
  unfold JSArray.set, JSArray.get.
  destruct (decide (i < 0)); [lia|]. destruct (decide (i < JSArray.length a)); [|lia].
  destruct (decide (j < 0)); [lia|].
  unfold JSArray.length in *.
  destruct (lookup_lt_is_Some_2 a (Z.to_nat i)) as [x Hx]; [lia|].
  destruct (lookup_lt_is_Some_2 a (Z.to_nat j)) as [y Hy]; [lia|].
  rewrite Hx, Hy. simpl.
  by apply Permutation_insert_swap.
Qed.

End JSArrayFacts.

(** ** The Scene Store *)

Lemma handleReorderScene_guard (cs : MovieScript.t) (i : Z) (d : Direction) :
  targetIndex i d < 0 \/ targetIndex i d >= JSArray.length (MovieScript.scenes cs) ->
  handleReorderScene i d (Some cs) = Some cs.
Proof.
  intros H. unfold handleReorderScene, JSArray.spread.
  destruct (decide _) as [|Hn]; [done|]. by destruct Hn.
Qed.

Lemma scene_ids_Permutation (cs cs' : MovieScript.t) :
  MovieScript.scenes cs' ≡ₚ MovieScript.scenes cs -> scene_ids cs' ≡ₚ scene_ids cs.
Proof. intros H. unfold scene_ids, JSArray.present. by rewrite H. Qed.

(** C1. On a script with scenes [s] and an index [i]: [reorder(i, up)] with
    [i = 0] and [reorder(i, down)] with [i] the last index give the script
    back unchanged; for every other index of [s] and direction, the result
    has the entries at [i] and at its target (i-1 for up, i+1 for down)
    exchanged, every other entry where it was, the same length, title and
    genre, and the same scenes, hence the same identifiers, each still on
    its scene. *)
Theorem reorder_swaps_adjacent (cs : MovieScript.t) (i : Z) (d : Direction) :
  let s := MovieScript.scenes cs in
  let n := JSArray.length s in
  let t := targetIndex i d in
  (i = 0 -> handleReorderScene i up (Some cs) = Some cs) /\
  (i = n - 1 -> handleReorderScene i down (Some cs) = Some cs) /\
  (0 <= i < n -> ~ (i = 0 /\ d = up) -> ~ (i = n - 1 /\ d = down) ->
   exists cs', handleReorderScene i d (Some cs) = Some cs' /\
     let s' := MovieScript.scenes cs' in
     MovieScript.title cs' = MovieScript.title cs /\
     MovieScript.genre cs' = MovieScript.genre cs /\
     JSArray.length s' = n /\
     JSArray.get s' i = JSArray.get s t /\
     JSArray.get s' t = JSArray.get s i /\
     (forall j, j <> i -> j <> t -> JSArray.get s' j = JSArray.get s j) /\
     s' ≡ₚ s /\
     scene_ids cs' ≡ₚ scene_ids cs).
Proof.
  intros s n t. split; [|split].
  - intros ->. apply handleReorderScene_guard. simpl. lia.
  - intros ->. apply handleReorderScene_guard. simpl. fold s n. lia.
  - intros Hi Hup Hdown.
    assert (Ht : 0 <= t < n /\ t <> i).
    { subst t. destruct d; simpl; split; try lia.
      - destruct (decide (i = 0)); [by destruct Hup|lia].
      - destruct (decide (i = n - 1)); [by destruct Hdown|lia]. }
    destruct Ht as [Ht Hti].
    unfold handleReorderScene, JSArray.spread. fold s n t.
    destruct (decide (t < 0 \/ t >= n)) as [Hout|_]; [lia|].
    eexists. split; [reflexivity|]. simpl.
    assert (Hlen : JSArray.length (JSArray.set s i (JSArray.get s t)) = n).
    { rewrite JSArray_length_set. destruct (decide (i < 0)); subst n; lia. }
    repeat split.
    + rewrite JSArray_length_set, Hlen. destruct (decide (t < 0)); lia.
    + rewrite JSArray_get_set_ne by done. apply JSArray_get_set_eq. lia.
    + apply JSArray_get_set_eq. lia.
    + intros j Hji Hjt. rewrite !JSArray_get_set_ne by done. done.
    + by apply JSArray_swap_Permutation.
    + apply scene_ids_Permutation. simpl. by apply JSArray_swap_Permutation.
Qed.

(** The middle scene of three moves up. *)
Lemma reorder_swaps_adjacent_witness :
  let cs := MovieScript.mk "T" "G"
              [Some (Scene.mk (Some "a") "S0" "" "" "");
               Some (Scene.mk (Some "b") "S1" "" "" "");
               Some (Scene.mk (Some "c") "S2" "" "" "")] in
  exists cs', handleReorderScene 1 up (Some cs) = Some cs' /\
    JSArray.get (MovieScript.scenes cs') 1 = JSArray.get (MovieScript.scenes cs) 0 /\
    JSArray.get (MovieScript.scenes cs') 0 = JSArray.get (MovieScript.scenes cs) 1.
Proof.
  intros cs.
  destruct (reorder_swaps_adjacent cs 1 up) as (_ & _ & H).
  assert (Hin : 0 <= 1 < JSArray.length (MovieScript.scenes cs)) by (unfold JSArray.length; simpl; lia).
  assert (Hup : ~ (1 = 0 /\ up = up)) by (intros [H0 _]; discriminate H0).
  assert (Hdown : ~ (1 = JSArray.length (MovieScript.scenes cs) - 1 /\ up = down))
    by (intros [_ H0]; discriminate H0).
  destruct (H Hin Hup Hdown) as (cs' & Hr & _ & _ & _ & H1 & H0 & _).
  exists cs'. split; [exact Hr|]. split; [exact H1|exact H0].
Defined.

(** Three scenes [S0; S1; S2]: [reorder(1, up)] gives [S1; S0; S2], and
    [reorder(0, up)] on that is a no-op. *)
Example reorder_three_scenes :
  let s0 := Some (Scene.mk (Some "a") "S0" "" "" "") in
  let s1 := Some (Scene.mk (Some "b") "S1" "" "" "") in
  let s2 := Some (Scene.mk (Some "c") "S2" "" "" "") in
  let moved := handleReorderScene 1 up (Some (MovieScript.mk "T" "G" [s0; s1; s2])) in
  moved = Some (MovieScript.mk "T" "G" [s1; s0; s2])
  /\ handleReorderScene 0 up moved = moved.
Proof. by vm_compute. Qed.

(** The guard of [reorder] is on the target alone: an [index] that is no
    index of the array, next to a target that is one, passes it. The cards
    never send such an index, theirs being the index of their scene. *)
Example reorder_outside_indices :
  let s0 := Some (Scene.mk (Some "a") "S0" "" "" "") in
  let s1 := Some (Scene.mk (Some "b") "S1" "" "" "") in
  handleReorderScene 2 up (Some (MovieScript.mk "T" "G" [s0; s1]))
  = Some (MovieScript.mk "T" "G" [s0; None; s1])
  /\ handleReorderScene (-1) down (Some (MovieScript.mk "T" "G" [s0; s1]))
     = Some (MovieScript.mk "T" "G" [None; s1]).
Proof. by vm_compute. Qed.

Lemma withField_id (name : SceneCard.Field) (value : string) (prev : Scene.t) :
  Scene.id (SceneCard.withField name value prev) = Scene.id prev.
Proof. by destruct name. Qed.

Lemma applyEdits_id (edits : list (SceneCard.Field * string)) (committed : Scene.t) :
  Scene.id (applyEdits edits committed) = Scene.id committed.
Proof.
  unfold applyEdits. revert committed.
  induction edits as [|e edits IH]; intros committed; simpl; [done|].
  by rewrite IH, withField_id.
Qed.

(** C4, as stated, fails: the scene at index 0 carries the identifier "a",
    the replacement carries "b", and after the update index 0 holds "b". *)
Lemma update_keeps_identifier_counterexample :
  ~ update_keeps_identifier
      (MovieScript.mk "T" "G" [Some (Scene.mk (Some "a") "t" "d" "l" "p")])
      0 (Scene.mk (Some "b") "t" "d" "l" "p").
Proof.
  intros H. specialize (H _ eq_refl). vm_compute in H. discriminate H.
Qed.

(** C4, amended. For an index [i] of an existing scene and a replacement
    [newScene], [update(i, newScene)] changes the entry at [i] only, which
    becomes [newScene]; length, title, genre and every other entry stay. The
    identifier at [i] afterwards is the one that [newScene] carries: it is
    the identifier from before whenever [newScene] carries that one, as
    every draft does that a card makes of the committed scene by field
    edits. *)
Theorem update_replaces_one_entry (cs : MovieScript.t) (i : Z) (newScene : Scene.t) :
  let s := MovieScript.scenes cs in
  0 <= i < JSArray.length s ->
  exists cs', handleUpdateScene i newScene (Some cs) = Some cs' /\
    let s' := MovieScript.scenes cs' in
    MovieScript.title cs' = MovieScript.title cs /\
    MovieScript.genre cs' = MovieScript.genre cs /\
    JSArray.length s' = JSArray.length s /\
    JSArray.get s' i = Some newScene /\
    (forall j, j <> i -> JSArray.get s' j = JSArray.get s j) /\
    identifierAt cs' i = Some (Scene.id newScene) /\
    (forall old, JSArray.get s i = Some old -> Scene.id newScene = Scene.id old ->
       identifierAt cs' i = identifierAt cs i) /\
    (forall committed edits, JSArray.get s i = Some committed ->
       newScene = applyEdits edits committed ->
       identifierAt cs' i = identifierAt cs i).
Proof.
  intros s Hi. unfold handleUpdateScene, JSArray.spread. fold s.
  eexists. split; [reflexivity|]. simpl.
  assert (Hget : JSArray.get (JSArray.set s i (Some newScene)) i = Some newScene)
    by (apply JSArray_get_set_eq; lia).
  assert (Hid : forall old, JSArray.get s i = Some old -> Scene.id newScene = Scene.id old ->
            identifierAt (MovieScript.with_scenes (JSArray.set s i (Some newScene)) cs) i
            = identifierAt cs i).
  { intros old Hold Heq. unfold identifierAt. simpl. fold s. rewrite Hget, Hold. simpl.
    by rewrite Heq. }
  repeat split.
  - rewrite JSArray_length_set. destruct (decide (i < 0)); lia.
  - exact Hget.
  - intros j Hj. by apply JSArray_get_set_ne.
  - unfold identifierAt. simpl. by rewrite Hget.
  - exact Hid.
  - intros committed edits Hc ->. apply (Hid committed Hc). apply applyEdits_id.
Qed.

(** The second of two scenes is replaced by a draft with a new title. *)
Lemma update_replaces_one_entry_witness :
  let a := Scene.mk (Some "a") "A" "" "" "" in
  let b := Scene.mk (Some "b") "B" "" "" "" in
  let cs := MovieScript.mk "T" "G" [Some a; Some b] in
  let draft := applyEdits [(SceneCard.title, "B2")] b in
  exists cs', handleUpdateScene 1 draft (Some cs) = Some cs' /\
    JSArray.get (MovieScript.scenes cs') 1 = Some draft /\
    identifierAt cs' 1 = identifierAt cs 1.
Proof.
  intros a b cs draft.
  assert (Hin : 0 <= 1 < JSArray.length (MovieScript.scenes cs))
    by (unfold JSArray.length; simpl; lia).
  destruct (update_replaces_one_entry cs 1 draft Hin)
    as (cs' & Hu & _ & _ & _ & Hg & _ & _ & _ & Hd).
  exists cs'. split; [exact Hu|]. split; [exact Hg|].
  apply (Hd b [(SceneCard.title, "B2")]); reflexivity.
Defined.

(** C9. [update] has no bounds check: at an index at or beyond the length
    of the scenes it writes the scene at that index, and the array grows to
    end there (with holes between the old end and the index, and the old
    entries in place); [reorder] returns the script as it is whenever its
    target index is below zero or at or beyond the length. *)
Theorem update_beyond_length_grows (cs : MovieScript.t) (i : Z) (newScene : Scene.t) :
  let s := MovieScript.scenes cs in
  JSArray.length s <= i ->
  (exists cs', handleUpdateScene i newScene (Some cs) = Some cs' /\
     let s' := MovieScript.scenes cs' in
     JSArray.length s' = i + 1 /\
     JSArray.length s < JSArray.length s' /\
     JSArray.get s' i = Some newScene /\
     (forall j, j < JSArray.length s -> JSArray.get s' j = JSArray.get s j) /\
     (forall j, JSArray.length s <= j < i -> JSArray.get s' j = None)) /\
  (forall k d, targetIndex k d < 0 \/ targetIndex k d >= JSArray.length s ->
     handleReorderScene k d (Some cs) = Some cs).
Proof.
  intros s Hi. pose proof (JSArray_length_nonneg s) as Hn. split.
  - unfold handleUpdateScene, JSArray.spread. fold s.
    eexists. split; [reflexivity|]. simpl.
    assert (Hlen : JSArray.length (JSArray.set s i (Some newScene)) = i + 1).
    { rewrite JSArray_length_set. destruct (decide (i < 0)); lia. }
    repeat split.
    + exact Hlen.
    + lia.
    + apply JSArray_get_set_eq. lia.
    + intros j Hj. apply JSArray_get_set_ne. lia.
    + intros j Hj. rewrite JSArray_get_set_ne by lia. apply JSArray_get_outside. lia.
  - intros k d Hk. by apply handleReorderScene_guard.
Qed.

(** An update at index 5 of a script of two scenes gives six slots. *)
Lemma update_beyond_length_grows_witness :
  let a := Scene.mk (Some "a") "A" "" "" "" in
  let cs := MovieScript.mk "T" "G" [Some a; Some a] in
  exists cs', handleUpdateScene 5 a (Some cs) = Some cs' /\
    JSArray.length (MovieScript.scenes cs') = 6 /\
    JSArray.get (MovieScript.scenes cs') 5 = Some a.
Proof.
  intros a cs.
  assert (Hout : JSArray.length (MovieScript.scenes cs) <= 5)
    by (unfold JSArray.length; simpl; lia).
  destruct (update_beyond_length_grows cs 5 a Hout) as ((cs' & Hu & Hl & _ & Hg & _) & _).
  exists cs'. split; [exact Hu|]. split; [exact Hl|exact Hg].
Defined.

(** ** The placeholder of a card *)

Lemma fold_left_charCode (cs : list ascii) (acc : Z) :
  fold_left (fun acc char => acc + JS.charCode char) cs acc
  = acc + charCodeSum (string_of_list_ascii cs).
Proof.
  revert acc. induction cs as [|c cs IH]; intros acc; simpl; [lia|].
  rewrite IH. lia.
Qed.

Lemma placeholderSeed_sum (prompt : string) (position : Z) :
  SceneCard.placeholderSeed prompt position = charCodeSum prompt + position.
Proof.
  unfold SceneCard.placeholderSeed, JS.split_chars.
  rewrite fold_left_charCode, string_of_list_ascii_of_string. lia.
Qed.

Lemma list_ascii_of_string_append (a b : string) :
  list_ascii_of_string (a ++ b)
  = (list_ascii_of_string a ++ list_ascii_of_string b)%list.
Proof. induction a as [|c a IH]; simpl; [done|]. by rewrite IH. Qed.

Lemma string_app_inv_tail (a b tail : string) : a ++ tail = b ++ tail -> a = b.
Proof.
  intros H. apply (f_equal list_ascii_of_string) in H.
  rewrite !list_ascii_of_string_append in H.
  apply app_inv_tail in H.
  rewrite <- (string_of_list_ascii_of_string a), <- (string_of_list_ascii_of_string b).
  by rewrite H.
Qed.

Lemma placeholderUrl_inj (seed seed' : Z) :
  SceneCard.placeholderUrl seed = SceneCard.placeholderUrl seed' -> seed = seed'.
Proof.
  unfold SceneCard.placeholderUrl, JS.numberToString. intros H.
  apply (inj (String.app "https://picsum.photos/seed/")) in H.
  apply string_app_inv_tail in H.
  by apply (inj pretty) in H.
Qed.

(** C5, as stated, fails: two prompts with the same letters in another
    order, at one position, have one placeholder reference. *)
Lemma placeholder_changes_with_input_counterexample :
  ~ placeholder_changes_with_input.
Proof.
  intros H. apply (H "ab" 1 "ba" 1); [left; discriminate|]. reflexivity.
Qed.

(** C5, amended. The seed of the placeholder is the sum of the character
    codes of the imagePrompt plus the 1-based position, and the reference is
    a function of the seed: two (imagePrompt, position) pairs have one
    reference exactly when their seeds are equal. So equal pairs have equal
    references, another position under one imagePrompt changes the
    reference, and another imagePrompt at one position changes it exactly
    when the sums of character codes differ. *)
Theorem placeholder_reference_by_seed (prompt prompt' : string) (position position' : Z) :
  SceneCard.placeholderSeed prompt position = charCodeSum prompt + position /\
  (SceneCard.placeholder prompt position = SceneCard.placeholder prompt' position'
   <-> charCodeSum prompt + position = charCodeSum prompt' + position') /\
  (position <> position' <->
   SceneCard.placeholder prompt position <> SceneCard.placeholder prompt position') /\
  (charCodeSum prompt <> charCodeSum prompt' <->
   SceneCard.placeholder prompt position <> SceneCard.placeholder prompt' position).
Proof.
  assert (Hiff : forall p n p' n',
    SceneCard.placeholder p n = SceneCard.placeholder p' n'
    <-> charCodeSum p + n = charCodeSum p' + n').
  { intros p n p' n'. unfold SceneCard.placeholder. rewrite <- !placeholderSeed_sum. split.
    - apply placeholderUrl_inj.
    - by intros ->. }
  split; [apply placeholderSeed_sum|]. split; [apply Hiff|].
  split; rewrite Hiff; lia.
Qed.

(** The card of a scene shows the placeholder of its imagePrompt at its
    position, one more than its index. *)
Lemma sceneEffect_placeholder (saveTrigger length index : Z) (scene : Scene.t) (st : SceneCard.State) :
  let p := SceneCard.propsAt saveTrigger length index scene in
  SceneCard.imageUrl (state_of (SceneCard.sceneEffect p st))
  = SceneCard.placeholder (Scene.imagePrompt scene) (index + 1).
Proof. reflexivity. Qed.

(** ** The Scene View *)

Lemma startsWith_picsum_iff (url : string) :
  SceneCard.UrlOrigin url ->
  JS.startsWith url "https://picsum.photos" = true <-> SceneCard.isPlaceholder url.
Proof.
  intros [|seed|base64Data]; split.
  - discriminate.
  - intros [seed H]. discriminate H.
  - intros _. by exists seed.
  - reflexivity.
  - discriminate.
  - intros [seed H]. discriminate H.
Qed.

Lemma needsImage_iff (p : SceneCard.Props) (st : SceneCard.State) :
  SceneCard.UrlOrigin (SceneCard.imageUrl st) ->
  SceneCard.needsImage p st = true
  <-> Scene.imagePrompt (SceneCard.editedScene st) <> Scene.imagePrompt (SceneCard.scene p)
      \/ SceneCard.isPlaceholder (SceneCard.imageUrl st).
Proof.
  intros Hurl. unfold SceneCard.needsImage.
  rewrite orb_true_iff, negb_true_iff, String.eqb_neq.
  by rewrite (startsWith_picsum_iff _ Hurl).
Qed.

(** The trace of [triggerImageGeneration]: the call of the image model with
    the prompt, and the two logs when it fails. *)
Lemma triggerImageGeneration_trace p prompt upstream st :
  trace_of (SceneCard.triggerImageGeneration p prompt upstream st)
  = match Service.generateImage_try upstream with
    | inr _ => [GenerateContent "gemini-2.5-flash-image" prompt]
    | inl error =>
        [GenerateContent "gemini-2.5-flash-image" prompt;
         ConsoleError "Error generating image:" error;
         ConsoleError "" (JS.mkError "Failed to generate image with the Gemini API.")]
    end.
Proof.
  unfold SceneCard.triggerImageGeneration, Service.generateImage,
    SceneCard.setIsGeneratingImage, SceneCard.setImageError, SceneCard.setImageUrl.
  destruct (Service.generateImage_try upstream); run_act; reflexivity.
Qed.

Lemma handleSave_trace p upstream st :
  trace_of (SceneCard.handleSave p upstream st)
  = ((if SceneCard.needsImage p st
      then trace_of (SceneCard.triggerImageGeneration p
                       (Scene.imagePrompt (SceneCard.editedScene st)) upstream st)
      else []) ++ [OnUpdateScene (SceneCard.editedScene st)])%list.
Proof.
  unfold SceneCard.handleSave, SceneCard.triggerImageGeneration, Service.generateImage,
    SceneCard.setIsGeneratingImage, SceneCard.setImageError, SceneCard.setImageUrl,
    SceneCard.setIsEditing.
  destruct (Service.generateImage_try upstream); run_act;
    destruct (SceneCard.needsImage p st); reflexivity.
Qed.

Lemma handleSave_isEditing p upstream st :
  SceneCard.isEditing (state_of (SceneCard.handleSave p upstream st)) = false.
Proof.
  unfold SceneCard.handleSave, SceneCard.triggerImageGeneration, Service.generateImage,
    SceneCard.setIsGeneratingImage, SceneCard.setImageError, SceneCard.setImageUrl,
    SceneCard.setIsEditing.
  destruct (Service.generateImage_try upstream); run_act;
    destruct (SceneCard.needsImage p st); reflexivity.
Qed.

(** C2. A save of a card requests an image exactly when the imagePrompt of
    the draft differs from the one of the committed scene or the image of
    the card is still the placeholder; then it issues one request, with the
    imagePrompt of the draft. Whatever the outcome of that request, the save
    commits the draft, once, and leaves the editing mode. *)
Theorem save_requests_image_iff (p : SceneCard.Props) (st : SceneCard.State)
    (upstream : Settled Service.ImageResponse) :
  SceneCard.UrlOrigin (SceneCard.imageUrl st) ->
  let draft := SceneCard.editedScene st in
  let run := SceneCard.handleSave p upstream st in
  let wanted :=
    Scene.imagePrompt draft <> Scene.imagePrompt (SceneCard.scene p)
    \/ SceneCard.isPlaceholder (SceneCard.imageUrl st) in
  (SceneCard.imageRequests (trace_of run) <> [] <-> wanted) /\
  (wanted -> SceneCard.imageRequests (trace_of run) = [Scene.imagePrompt draft]) /\
  (~ wanted -> SceneCard.imageRequests (trace_of run) = []) /\
  SceneCard.commits (trace_of run) = [draft] /\
  SceneCard.isEditing (state_of run) = false.
Proof.
  intros Hurl draft run wanted.
  pose proof (needsImage_iff p st Hurl) as Hneeds. fold draft wanted in Hneeds.
  assert (Hreq : SceneCard.imageRequests (trace_of run)
                 = if SceneCard.needsImage p st then [Scene.imagePrompt draft] else []).
  { subst run. rewrite handleSave_trace, triggerImageGeneration_trace.
    destruct (SceneCard.needsImage p st); [|reflexivity].
    by destruct (Service.generateImage_try upstream). }
  assert (Hcom : SceneCard.commits (trace_of run) = [draft]).
  { subst run. rewrite handleSave_trace, triggerImageGeneration_trace.
    destruct (SceneCard.needsImage p st); [|reflexivity].
    by destruct (Service.generateImage_try upstream). }
  rewrite Hreq.
  split; [|split; [|split; [|split]]];
    [| | |exact Hcom|apply handleSave_isEditing];
    destruct (SceneCard.needsImage p st) eqn:Hn.
  - split; [intros _; by apply Hneeds|discriminate].
  - split; [done|]. intros Hw. apply Hneeds in Hw. discriminate Hw.
  - done.
  - intros Hw. apply Hneeds in Hw. discriminate Hw.
  - intros Hnw. destruct Hnw. by apply Hneeds.
  - done.
Qed.

(** A card on its placeholder saves a draft with a new imagePrompt: one
    request with the new prompt, and the commit of the draft. *)
Lemma save_requests_image_iff_witness :
  let run := SceneCard.handleSave (Sample.props 0) Sample.imageResponse Sample.editing in
  SceneCard.imageRequests (trace_of run) = ["a new prompt"] /\
  SceneCard.commits (trace_of run) = [SceneCard.editedScene Sample.editing].
Proof.
  intros run.
  assert (Hurl : SceneCard.UrlOrigin (SceneCard.imageUrl Sample.editing))
    by exact (SceneCard.url_placeholder 197).
  destruct (save_requests_image_iff (Sample.props 0) Sample.editing Sample.imageResponse Hurl)
    as (_ & Hreq & _ & Hcom & _).
  split; [|exact Hcom].
  apply Hreq. left. vm_compute. discriminate.
Defined.

(** C3, as stated, fails: in the save of a draft with a new imagePrompt the
    commit does not come before the image request. *)
Lemma commit_before_request_counterexample :
  ~ commits_precede_requests
      (trace_of (SceneCard.handleSave (Sample.props 0) Sample.imageResponse Sample.editing)).
Proof.
  intros H.
  specialize (H 1%nat 0%nat _ _ eq_refl eq_refl eq_refl eq_refl). lia.
Qed.

(** C3, amended. In every save of a card, the image request that the save
    triggers is issued, and has run to its end, before the draft is
    committed: the trace of the save is the trace of the image generation,
    if any, followed by the commit, so every image request of the save
    precedes its commit. *)
Theorem save_requests_before_commit (p : SceneCard.Props) (st : SceneCard.State)
    (upstream : Settled Service.ImageResponse) :
  let run := SceneCard.handleSave p upstream st in
  let generation :=
    if SceneCard.needsImage p st
    then trace_of (SceneCard.triggerImageGeneration p
                     (Scene.imagePrompt (SceneCard.editedScene st)) upstream st)
    else [] in
  trace_of run = (generation ++ [OnUpdateScene (SceneCard.editedScene st)])%list /\
  SceneCard.commits generation = [] /\
  requests_precede_commits (trace_of run).
Proof.
  intros run generation.
  assert (Htr : trace_of run = (generation ++ [OnUpdateScene (SceneCard.editedScene st)])%list)
    by apply handleSave_trace.
  assert (Hgen : SceneCard.commits generation = []).
  { subst generation. destruct (SceneCard.needsImage p st); [|reflexivity].
    rewrite triggerImageGeneration_trace.
    by destruct (Service.generateImage_try upstream). }
  split; [exact Htr|]. split; [exact Hgen|].
  rewrite Htr. subst generation. intros c k ec ek Hc Hk Hic Hik.
  destruct (SceneCard.needsImage p st).
  - rewrite triggerImageGeneration_trace in Hc, Hk.
    destruct (Service.generateImage_try upstream);
      destruct c as [|[|[|[|c]]]]; simplify_eq/=;
      destruct k as [|[|[|[|k]]]]; simplify_eq/=; lia.
  - destruct c as [|c]; simplify_eq/=.
    destruct k as [|k]; simplify_eq/=.
Qed.

Lemma handleSaveAll_increments (a : App.State) :
  App.saveTrigger (state_of (App.handleSaveAll a)) = App.saveTrigger a + 1.
Proof. reflexivity. Qed.

(** C10. Once the counter of the save signal is positive (as it is after
    one "save all", the counter starting at zero), a card that enters the
    editing mode, under a counter that stays as it is, runs the save at
    once: the click on "Edit Scene" does what [setIsEditing(true)] followed
    by [handleSave] does, so the draft is committed and the card is back in
    the viewing mode. *)
Theorem edit_after_save_all_saves (a : App.State) (p : SceneCard.Props)
    (st : SceneCard.State) (upstream : Settled Service.ImageResponse) :
  0 <= App.saveTrigger a ->
  SceneCard.saveTrigger p = App.saveTrigger (state_of (App.handleSaveAll a)) ->
  SceneCard.isEditing st = false ->
  let run := SceneCard.clickEditScene p upstream st in
  SceneCard.saveTrigger p > 0 /\
  run = (SceneCard.setIsEditing true;; SceneCard.handleSave p upstream) st /\
  SceneCard.commits (trace_of run) = [SceneCard.editedScene st] /\
  SceneCard.isEditing (state_of run) = false.
Proof.
  intros Ha Hp Hst run. rewrite handleSaveAll_increments in Hp.
  assert (Hpos : SceneCard.saveTrigger p > 0) by lia.
  assert (Hrun : run = (SceneCard.setIsEditing true;; SceneCard.handleSave p upstream) st).
  { subst run. unfold SceneCard.clickEditScene, SceneCard.saveTriggerEffect,
      SceneCard.useEffect, SceneCard.saveDepsDiffer, SceneCard.setIsEditing.
    run_act. rewrite Hst. cbn.
    rewrite Z.eqb_refl.
    destruct (Z.gtb_spec (SceneCard.saveTrigger p) 0) as [_|Hle]; [|lia].
    cbn.
    match goal with |- context [SceneCard.handleSave p upstream ?s] =>
      destruct (SceneCard.handleSave p upstream s) as [[[] s2] tr2] end.
    reflexivity. }
  split; [exact Hpos|]. split; [exact Hrun|].
  rewrite Hrun.
  unfold SceneCard.handleSave, SceneCard.triggerImageGeneration, Service.generateImage,
    SceneCard.setIsGeneratingImage, SceneCard.setImageError, SceneCard.setImageUrl,
    SceneCard.setIsEditing.
  destruct (Service.generateImage_try upstream); run_act;
    match goal with |- context [SceneCard.needsImage ?q ?s] =>
      destruct (SceneCard.needsImage q s) end; split; reflexivity.
Qed.

(** After the first "save all", a card on its placeholder is opened for
    editing: the image is requested and the untouched draft is committed. *)
Lemma edit_after_save_all_saves_witness :
  let run := SceneCard.clickEditScene (Sample.props 1) Sample.imageResponse Sample.shown in
  SceneCard.commits (trace_of run) = [Sample.scene] /\
  SceneCard.isEditing (state_of run) = false.
Proof.
  intros run.
  assert (H0 : 0 <= App.saveTrigger App.init) by (simpl; lia).
  assert (Hp : SceneCard.saveTrigger (Sample.props 1)
               = App.saveTrigger (state_of (App.handleSaveAll App.init))) by reflexivity.
  assert (Hst : SceneCard.isEditing Sample.shown = false) by reflexivity.
  destruct (edit_after_save_all_saves App.init (Sample.props 1) Sample.shown
              Sample.imageResponse H0 Hp Hst) as (_ & _ & Hcom & Hed).
  split; [exact Hcom|exact Hed].
Defined.

(** ** The Script Client *)

Lemma generateMovieScript_outcome (idea : string) (upstream : Settled Service.TextResponse) :
  (Service.generateMovieScript idea upstream).2
  = match Service.generateMovieScript_try upstream with
    | inr v => inr v
    | inl _ => inl (JS.mkError "Failed to communicate with the Gemini API.")
    end.
Proof.
  unfold Service.generateMovieScript.
  by destruct (Service.generateMovieScript_try upstream).
Qed.

Lemma generateMovieScript_try_fails (upstream : Settled Service.TextResponse) :
  fails (Service.generateMovieScript_try upstream) <-> scriptClientFailsOn upstream.
Proof.
  unfold fails, scriptClientFailsOn, Service.generateMovieScript_try, JS.truthy.
  destruct upstream as [e|[[jsonText|]]]; simpl.
  - split; [intros _; left; by exists e|intros _; by eexists].
  - destruct (String.eqb_spec jsonText "") as [->|Hne]; simpl.
    + split; [intros _|intros _; by eexists].
      right. eexists. split; [reflexivity|]. by left.
    + destruct (JSON.parse jsonText) as [v|] eqn:Hparse.
      * split.
        -- intros [e He]. discriminate He.
        -- intros [[e He]|(response & Hr & Ht)]; [discriminate He|].
           simplify_eq/=. destruct Ht as [Ht|Ht]; [done|congruence].
      * split; [intros _|intros _; by eexists].
        right. eexists. split; [reflexivity|]. simpl. by right.
  - split; [intros _|intros _; by eexists].
    right. eexists. split; [reflexivity|]. done.
Qed.

(** C6, as stated, fails, twice: with the empty idea and a response that is
    a script, the client returns the script; with an idea and a response
    whose text is an empty object, which has not the required shape, the
    client returns the empty object. The claim asks for a failure in both. *)
Lemma scriptClient_counterexample :
  (scriptClientShouldFail "" (Sample.textResponse Sample.scriptText) /\
   (Service.generateMovieScript "" (Sample.textResponse Sample.scriptText)).2
   = inr Sample.scriptValue) /\
  (scriptClientShouldFail "A robot learns to paint" (Sample.textResponse "{}") /\
   (Service.generateMovieScript "A robot learns to paint" (Sample.textResponse "{}")).2
   = inr (JSON.Obj [])) /\
  ~ scriptClient_fails_exactly_when_it_should.
Proof.
  assert (H1 : scriptClientShouldFail "" (Sample.textResponse Sample.scriptText)) by (by left).
  assert (H2 : scriptClientShouldFail "A robot learns to paint" (Sample.textResponse "{}")).
  { right. right. eexists. split; [reflexivity|]. simpl. right.
    intros (v & Hv & Hs). vm_compute in Hv. injection Hv as <-. discriminate Hs. }
  split; [split; [exact H1|by vm_compute]|].
  split; [split; [exact H2|by vm_compute]|].
  intros H. apply H in H1. destruct H1 as [e He]. vm_compute in He. discriminate He.
Qed.

(** C6, amended. The Script Client fails, with the one error "Failed to
    communicate with the Gemini API.", exactly when the upstream call
    errors, the text of the response is absent or empty, or the text is not
    JSON; otherwise it returns the value that the text denotes. It looks
    neither at the idea, which only goes into the prompt, nor at the shape
    of the value. *)
Theorem scriptClient_fails_exactly (idea : string) (upstream : Settled Service.TextResponse) :
  let outcome := (Service.generateMovieScript idea upstream).2 in
  (fails outcome <-> scriptClientFailsOn upstream) /\
  (fails outcome <->
   outcome = inl (JS.mkError "Failed to communicate with the Gemini API.")) /\
  (forall v, outcome = inr v <->
     exists jsonText, upstream = Fulfilled {| Service.text := Some jsonText |}
       /\ jsonText <> "" /\ JSON.parse jsonText = Some v) /\
  (forall idea', (Service.generateMovieScript idea' upstream).2 = outcome) /\
  head (Service.generateMovieScript idea upstream).1
  = Some (GenerateContent "gemini-2.5-flash" (Service.scriptPrompt idea)).
Proof.
  intros outcome. subst outcome. rewrite generateMovieScript_outcome.
  pose proof (generateMovieScript_try_fails upstream) as Hf.
  split; [|split; [|split; [|split]]].
  - rewrite <- Hf. unfold fails.
    destruct (Service.generateMovieScript_try upstream) as [e|v].
    + split; intros _; by eexists.
    + split; intros [e' He]; discriminate He.
  - unfold fails. destruct (Service.generateMovieScript_try upstream) as [e|v].
    + split; [done|]. intros _. by eexists.
    + split; [intros [e' He]; discriminate He|discriminate].
  - intros v. unfold Service.generateMovieScript_try, JS.truthy.
    destruct upstream as [e|[[jsonText|]]]; simpl.
    + split; [discriminate|]. intros (t & Ht & _). discriminate Ht.
    + destruct (String.eqb_spec jsonText "") as [->|Hne]; simpl.
      * split; [discriminate|]. intros (t & Ht & Hne & _). by simplify_eq.
      * destruct (JSON.parse jsonText) as [v'|] eqn:Hparse.
        -- split.
           ++ intros [= ->]. by exists jsonText.
           ++ intros (t & Ht & _ & Hp). simplify_eq; congruence.
        -- split; [discriminate|]. intros (t & Ht & _ & Hp). simplify_eq; congruence.
    + split; [discriminate|]. intros (t & Ht & _). discriminate Ht.
  - intros idea'. by rewrite generateMovieScript_outcome.
  - unfold Service.generateMovieScript.
    by destruct (Service.generateMovieScript_try upstream).
Qed.

(** ** The Image Client *)

Lemma firstInlineData_None (ps : list Service.Part) :
  Service.firstInlineData ps = None <-> Forall (fun part => ~ hasImage part) ps.
Proof.
  unfold hasImage. induction ps as [|part ps IH]; simpl.
  - split; [constructor|done].
  - destruct (Service.inlineData part) as [blob|] eqn:Hpart.
    + split; [discriminate|]. intros H. inversion H as [|?? Hn _]. destruct Hn.
      rewrite Hpart. by eexists.
    + rewrite IH. split.
      * intros H. constructor; [|done]. rewrite Hpart. by intros [? ?].
      * intros H. by inversion H.
Qed.

Lemma firstInlineData_Some (ps : list Service.Part) (d : string) :
  Service.firstInlineData ps = Some d <->
  exists before part blob after,
    ps = (before ++ part :: after)%list /\
    Forall (fun q => ~ hasImage q) before /\
    Service.inlineData part = Some blob /\ Service.data blob = d.
Proof.
  unfold hasImage. induction ps as [|part ps IH]; simpl.
  - split; [discriminate|]. intros (before & ? & ? & ? & H & _). by destruct before.
  - destruct (Service.inlineData part) as [blob|] eqn:Hpart.
    + split.
      * intros [= <-]. exists [], part, blob, ps. by repeat split.
      * intros (before & part' & blob' & after & Hps & Hb & Hi & Hd).
        destruct before as [|q before]; [simplify_eq/=; congruence|].
        simplify_eq/=.
        inversion Hb as [|?? Hn _]. destruct Hn. rewrite Hpart. by eexists.
    + rewrite IH. split.
      * intros (before & part' & blob' & after & -> & Hb & Hi & Hd).
        exists (part :: before), part', blob', after. repeat split; try done.
        constructor; [|done]. rewrite Hpart. by intros [? ?].
      * intros (before & part' & blob' & after & Hps & Hb & Hi & Hd).
        destruct before as [|q before]; [simplify_eq/=; congruence|].
        simplify_eq/=.
        exists before, part', blob', after. repeat split; try done.
        by inversion Hb.
Qed.

Lemma firstCandidateParts_Some (response : Service.ImageResponse) (ps : list Service.Part) :
  Service.firstCandidateParts response = Some ps <-> respondsWithParts (Fulfilled response) ps.
Proof.
  unfold Service.firstCandidateParts, respondsWithParts.
  destruct response as [[[|candidate others]|]]; simpl.
  - split; [discriminate|]. intros (? & ? & ? & H & _). discriminate H.
  - split.
    + intros H. exists candidate, others.
      destruct (Service.content candidate) as [c|] eqn:Hc; [|discriminate]. by exists c.
    + intros (candidate' & others' & c & [= <- <-] & Hc & Hps). by rewrite Hc.
  - split; [discriminate|]. intros (? & ? & ? & H & _). discriminate H.
Qed.

(** C7. Given a prompt, the Image Client calls the image model once, with
    that prompt. When the response carries parts (those of its first
    candidate) of which one has image data, the client returns the data of
    the first such part, whatever parts without image data come before it,
    and returns nothing else. It fails, with the one error "Failed to
    generate image with the Gemini API.", exactly when the upstream call
    errors or the response carries no part with image data. *)
Theorem imageClient_outcome (prompt : string) (upstream : Settled Service.ImageResponse) :
  let run := Service.generateImage prompt upstream in
  SceneCard.imageRequests run.1 = [prompt] /\
  (forall d, run.2 = inr d <->
     exists before part blob after,
       respondsWithParts upstream (before ++ part :: after)%list /\
       Forall (fun q => ~ hasImage q) before /\
       Service.inlineData part = Some blob /\ Service.data blob = d) /\
  (fails run.2 <->
     (exists e, upstream = Rejected e)
     \/ ((exists response, upstream = Fulfilled response)
         /\ forall ps, respondsWithParts upstream ps -> Forall (fun part => ~ hasImage part) ps)) /\
  (fails run.2 <->
   run.2 = inl (JS.mkError "Failed to generate image with the Gemini API.")).
Proof.
  intros run. subst run. unfold Service.generateImage, Service.generateImage_try, fails.
  destruct upstream as [e|response]; simpl.
  - split; [done|]. split; [|split].
    + intros d. split; [discriminate|].
      intros (? & ? & ? & ? & (? & ? & ? & H & _) & _). discriminate H.
    + split; [intros _; left; by exists e|intros _; by eexists].
    + split; [done|intros _; by eexists].
  - pose proof (firstCandidateParts_Some response) as Hparts.
    destruct (Service.firstCandidateParts response) as [ps|] eqn:Hps; simpl.
    + assert (Hresp : respondsWithParts (Fulfilled response) ps) by (by apply Hparts).
      assert (Huniq : forall ps', respondsWithParts (Fulfilled response) ps' -> ps' = ps).
      { intros ps' H'. apply Hparts in H'. congruence. }
      destruct (Service.firstInlineData ps) as [d|] eqn:Hd; simpl.
      * split; [done|]. split; [|split].
        -- intros d'. split.
           ++ intros [= <-]. apply firstInlineData_Some in Hd
                as (before & part & blob & after & -> & Hb & Hi & Hdata).
              by exists before, part, blob, after.
           ++ intros (before & part & blob & after & Hr & Hb & Hi & Hdata).
              apply Huniq in Hr. f_equal.
              assert (Service.firstInlineData ps = Some d') as Hd'.
              { apply firstInlineData_Some. exists before, part, blob, after. by rewrite Hr. }
              congruence.
        -- split; [intros [e He]; discriminate He|].
           intros [[e He]|[_ Hall]]; [discriminate He|].
           specialize (Hall ps Hresp). apply firstInlineData_None in Hall. congruence.
        -- split; [intros [e He]; discriminate He|discriminate].
      * split; [done|]. split; [|split].
        -- intros d'. split; [discriminate|].
           intros (before & part & blob & after & Hr & Hb & Hi & Hdata).
           apply Huniq in Hr.
           assert (Service.firstInlineData ps = Some d') as Hd'.
           { apply firstInlineData_Some. exists before, part, blob, after. by rewrite Hr. }
           congruence.
        -- split; [|intros _; by eexists].
           intros _. right. split; [by eexists|].
           intros ps' H'. apply Huniq in H'. subst ps'. by apply firstInlineData_None.
        -- split; [done|intros _; by eexists].
    + assert (Hnone : forall ps, ~ respondsWithParts (Fulfilled response) ps).
      { intros ps H. apply Hparts in H. discriminate H. }
      split; [done|]. split; [|split].
      * intros d. split; [discriminate|].
        intros (before & part & blob & after & Hr & _). by apply Hnone in Hr.
      * split; [|intros _; by eexists].
        intros _. right. split; [by eexists|]. intros ps H. by apply Hnone in H.
      * split; [done|intros _; by eexists].
Qed.

(** A response with a text part and then an image part: the client returns
    the data of the image part. *)
Lemma imageClient_outcome_witness :
  (Service.generateImage "a robot holding a brush" Sample.imageResponse).2 = inr "QUJD".
Proof.
  destruct (imageClient_outcome "a robot holding a brush" Sample.imageResponse)
    as (_ & Hdata & _).
  apply Hdata.
  exists [{| Service.partText := Some "Here is the image."; Service.inlineData := None |}],
    {| Service.partText := None;
       Service.inlineData := Some {| Service.mimeType := "image/png"; Service.data := "QUJD" |} |},
    {| Service.mimeType := "image/png"; Service.data := "QUJD" |}, [].
  split; [|split; [|split; reflexivity]].
  - eexists _, _, _. split; [reflexivity|]. split; reflexivity.
  - constructor; [|constructor]. intros [b Hb]. discriminate Hb.
Defined.

(** ** The generation in the Application Shell *)

(** In an array without holes the scene at position [k] gets the [k]-th
    identifier. *)
Lemma scenesWithIds_lookup (randomUUID : nat -> string) (scenes : list (option Scene.t)) (k0 k : nat) :
  all_present scenes ->
  App.scenesWithIds randomUUID k0 scenes !! k
  = (fun slot : option Scene.t => Scene.with_id (randomUUID (k0 + k)%nat) <$> slot)
    <$> scenes !! k.
Proof.
  intros Hall. revert k0 k.
  induction Hall as [|slot scenes [scene ->] _ IH]; intros k0 k; [done|].
  destruct k as [|k]; simpl.
  - by rewrite Nat.add_0_r.
  - rewrite IH. by replace (S k0 + k)%nat with (k0 + S k)%nat by lia.
Qed.

Lemma handleGenerateScript_run (randomUUID : nat -> string) (settled : Settled MovieScript.t)
    (st : App.State) :
  App.handleGenerateScript randomUUID settled st
  = if negb (JS.truthy (JS.trim (App.idea st)))
    then (tt,
          App.mk (App.idea st) (App.movieScript st) (App.isLoading st)
            (Some "Please enter a movie idea.") (App.saveTrigger st), [])
    else
      match settled with
      | Fulfilled script =>
          (tt,
           App.mk (App.idea st)
             (Some (MovieScript.with_scenes
                      (App.scenesWithIds randomUUID 0 (MovieScript.scenes script)) script))
             false None (App.saveTrigger st),
           [GenerateMovieScript (App.idea st)])
      | Rejected e =>
          (tt,
           App.mk (App.idea st) None false
             (Some "Failed to generate script. Please check your API key and try again.")
             (App.saveTrigger st),
           [GenerateMovieScript (App.idea st); ConsoleError "" e])
      end.
Proof.
  unfold App.handleGenerateScript, App.handleGenerateScript_start,
    App.handleGenerateScript_resume, App.setError, App.setIsLoading, App.setMovieScript.
  run_act. destruct (negb _); [done|]. by destruct settled.
Qed.

Lemma truthy_false_iff (s : string) : negb (JS.truthy s) = true <-> s = "".
Proof. unfold JS.truthy. rewrite negb_involutive. apply String.eqb_eq. Qed.

Lemma member_remove_eq (key : list N) (ms : list (list N * JSON.value)) :
  JSON.member key (JSON.remove key ms) = None.
Proof.
  induction ms as [|[k x] ms IH]; simpl; [done|].
  case_bool_decide as Hk; [done|]. simpl. rewrite IH. by rewrite bool_decide_false.
Qed.

Lemma member_remove_ne (key other : list N) (ms : list (list N * JSON.value)) :
  other <> key -> JSON.member other (JSON.remove key ms) = JSON.member other ms.
Proof.
  intros Hne. induction ms as [|[k x] ms IH]; simpl; [done|].
  case_bool_decide as Hk; simpl; rewrite IH; [|done].
  destruct (JSON.member other ms); [done|]. subst k. by rewrite bool_decide_false.
Qed.

Lemma member_put_eq (key : list N) (v : JSON.value) (ms : list (list N * JSON.value)) :
  JSON.member key (JSON.put key v ms) = Some v.
Proof.
  induction ms as [|[k x] ms IH]; simpl.
  - by rewrite bool_decide_true.
  - case_bool_decide as Hk; simpl.
    + rewrite member_remove_eq. by rewrite bool_decide_true.
    + by rewrite IH.
Qed.

Lemma member_put_ne (key other : list N) (v : JSON.value) (ms : list (list N * JSON.value)) :
  other <> key -> JSON.member other (JSON.put key v ms) = JSON.member other ms.
Proof.
  intros Hne. induction ms as [|[k x] ms IH]; simpl.
  - by rewrite bool_decide_false.
  - case_bool_decide as Hk; simpl.
    + rewrite member_remove_ne by done.
      destruct (JSON.member other ms); [done|]. subst k.
      by rewrite !bool_decide_false by done.
    + by rewrite IH.
Qed.

(** C8. On generate, with every write of a cell and the call in program
    order. When the idea is empty after trimming, the one effect is the
    error "Please enter a movie idea."; the Script Client is not called and
    no other cell changes. Otherwise the handler sets loading, clears the
    error and clears the script, and only then calls the client, once, with
    the idea: at the call the Shell is loading and has no error and no
    script. When the client resolves with an object whose scenes are an
    array, that object is stored with the scenes replaced by as many
    objects, the one at position k having the k-th identifier as its id and
    every other member of the scene at k; the error stays cleared. When the
    client rejects, or resolves with a value that has no array of scenes,
    the error message for the user is set and the script stays cleared. In
    all these cases the last effect clears loading. *)
Theorem generate_outcomes (randomUUID : nat -> string) (settled : Settled JSON.value)
    (st : AppJS.State) :
  let run := AppJS.handleGenerateScript randomUUID settled st in
  let final := run.1 in
  let message := "Failed to generate script. Please check your API key and try again." in
  (JS.trim (AppJS.idea st) = "" ->
     run.2 = [AppJS.SetError (Some "Please enter a movie idea.")] /\
     final = AppJS.mk (AppJS.idea st) (AppJS.movieScript st) (AppJS.isLoading st)
               (Some "Please enter a movie idea.") (AppJS.saveTrigger st)) /\
  (JS.trim (AppJS.idea st) <> "" ->
     (exists before rest,
        run.2 = (before ++ AppJS.CallGenerateMovieScript (AppJS.idea st) :: rest)%list /\
        Forall (fun e => ~ AppJS.isCall e) before /\
        Forall (fun e => ~ AppJS.isCall e) rest /\
        let pending := AppJS.replay st before in
        AppJS.isLoading pending = true /\ AppJS.error pending = None
        /\ AppJS.movieScript pending = None) /\
     (forall ms scenes,
        settled = Fulfilled (JSON.Obj ms) -> JSON.field "scenes" ms = Some (JSON.Arr scenes) ->
        exists stored withIds,
          AppJS.movieScript final = Some (JSON.Obj stored) /\
          JSON.field "scenes" stored = Some (JSON.Arr withIds) /\
          (forall key, key <> JS.units "scenes" -> JSON.member key stored = JSON.member key ms) /\
          length withIds = length scenes /\
          (forall k scene, scenes !! k = Some scene ->
             exists members, withIds !! k = Some (JSON.Obj members) /\
               JSON.field "id" members = Some (JSON.Str (JS.units (randomUUID k))) /\
               forall fields key, scene = JSON.Obj fields -> key <> JS.units "id" ->
                 JSON.member key members = JSON.member key fields) /\
          AppJS.error final = None) /\
     ((exists e, settled = Rejected e)
      \/ (exists v, settled = Fulfilled v /\
            forall ms scenes, v = JSON.Obj ms -> JSON.field "scenes" ms <> Some (JSON.Arr scenes)) ->
      AppJS.error final = Some message /\ AppJS.movieScript final = None) /\
     AppJS.isLoading final = false /\
     last run.2 = Some (AppJS.SetIsLoading false)) /\
  AppJS.idea final = AppJS.idea st /\ AppJS.saveTrigger final = AppJS.saveTrigger st.
Proof.
  intros run final message. subst run final.
  unfold AppJS.handleGenerateScript, AppJS.effects. simpl.
  pose proof (truthy_false_iff (JS.trim (AppJS.idea st))) as Hempty.
  destruct (negb (JS.truthy (JS.trim (AppJS.idea st)))).
  { split; [|split; [|done]].
    - intros _. done.
    - intros Hne. destruct Hne. by apply Hempty. }
  split; [intros He; apply Hempty in He; discriminate He|].
  split; [|unfold AppJS.afterAwait; destruct settled as [e|v];
           [|destruct (AppJS.scenesOf v)]; done].
  intros _.
  split.
  { exists [AppJS.SetIsLoading true; AppJS.SetError None; AppJS.SetMovieScript None],
      (AppJS.afterAwait randomUUID settled).
    split; [done|]. split; [repeat constructor; by intros []|]. split; [|done].
    unfold AppJS.afterAwait. destruct settled as [e|v]; [|destruct (AppJS.scenesOf v)];
      repeat constructor; by intros []. }
  unfold AppJS.afterAwait. destruct settled as [e|v].
  - (* the client rejects *)
    split; [intros ms scenes H; discriminate H|]. split; [|done]. intros _. done.
  - destruct (AppJS.scenesOf v) as [scenes|] eqn:Hv.
    + (* the client resolves with an object with an array of scenes *)
      destruct v as [| | | |xs|ms]; try discriminate Hv.
      unfold AppJS.scenesOf in Hv.
      destruct (JSON.field "scenes" ms) as [[| | | |xs|]|] eqn:Hf; try discriminate Hv.
      injection Hv as ->.
      split; [|split; [|done]].
      * intros ms' scenes' [= <-] Hf'. rewrite Hf in Hf'. injection Hf' as <-.
        eexists _, _. split; [reflexivity|]. simpl.
        split; [apply member_put_eq|]. split; [intros key Hk; by apply member_put_ne|].
        split; [apply length_imap|]. split; [|done].
        intros k scene Hk. rewrite list_lookup_imap, Hk. simpl.
        eexists. split; [reflexivity|]. split; [apply member_put_eq|].
        intros fields key -> Hkey. by apply member_put_ne.
      * intros [[e He]|(v & [= <-] & Hno)]; [discriminate He|].
        by destruct (Hno ms scenes eq_refl).
    + (* the client resolves with another value *)
      split; [|split; [done|done]].
      intros ms scenes [= ->] Hf. unfold AppJS.scenesOf in Hv. rewrite Hf in Hv.
      discriminate Hv.
Qed.

(** A new idea is submitted while an old script and an old error are shown,
    and the client resolves with a script of one scene; the client resolves
    with an empty object; and an idea of blanks is submitted. *)
Lemma generate_outcomes_witness :
  (let run := AppJS.handleGenerateScript Sample.uuids (Fulfilled Sample.scriptValue)
                (Sample.shellJS "A robot learns to paint") in
   exists stored members,
     AppJS.movieScript run.1 = Some (JSON.Obj stored) /\
     JSON.field "scenes" stored = Some (JSON.Arr [JSON.Obj members]) /\
     JSON.field "id" members = Some (JSON.Str (JS.units "uuid-0")) /\
     JSON.field "title" members = Some (Sample.str "First Light") /\
     AppJS.isLoading run.1 = false) /\
  (let run := AppJS.handleGenerateScript Sample.uuids (Fulfilled (JSON.Obj []))
                (Sample.shellJS "A robot learns to paint") in
   AppJS.movieScript run.1 = None /\
   AppJS.error run.1
   = Some "Failed to generate script. Please check your API key and try again.") /\
  (AppJS.handleGenerateScript Sample.uuids (Fulfilled Sample.scriptValue)
     (Sample.shellJS "   ")).2
  = [AppJS.SetError (Some "Please enter a movie idea.")].
Proof.
  assert (Hne : JS.trim (AppJS.idea (Sample.shellJS "A robot learns to paint")) <> "")
    by (vm_compute; discriminate).
  assert (He : JS.trim (AppJS.idea (Sample.shellJS "   ")) = "") by (vm_compute; reflexivity).
  split; [|split].
  - intros run.
    destruct (generate_outcomes Sample.uuids (Fulfilled Sample.scriptValue)
                (Sample.shellJS "A robot learns to paint")) as (_ & H & _).
    destruct (H Hne) as (_ & Hok & _ & Hl & _).
    destruct (Hok _ _ eq_refl eq_refl) as (stored & withIds & Hs & Hsc & _ & Hlen & Hids & _).
    destruct (Hids 0%nat _ eq_refl) as (members & Hm & Hid & Hfields).
    destruct withIds as [|w [|w' ws]]; try discriminate Hlen.
    injection Hm as ->.
    exists stored, members. split; [exact Hs|]. split; [exact Hsc|]. split; [exact Hid|].
    split; [|exact Hl].
    unfold JSON.field. rewrite (Hfields _ (JS.units "title") eq_refl); [reflexivity|].
    vm_compute. discriminate.
  - intros run.
    destruct (generate_outcomes Sample.uuids (Fulfilled (JSON.Obj []))
                (Sample.shellJS "A robot learns to paint")) as (_ & H & _).
    destruct (H Hne) as (_ & _ & Hfail & _).
    destruct Hfail as [Herr Hnone].
    + right. eexists. split; [reflexivity|]. intros ms scenes [= <-]. discriminate.
    + split; [exact Hnone|exact Herr].
  - destruct (generate_outcomes Sample.uuids (Fulfilled Sample.scriptValue)
                (Sample.shellJS "   ")) as (H & _).
    exact (proj1 (H He)).
Defined.

(** *** The generation at the declared types

    On a value of the interface [MovieScript] the generation on values
    and the generation at the declared type [Promise<MovieScript>] do the
    same to the cells of the Shell. *)

Lemma asString_units (s : string) : Typed.asString (JS.units s) = Some s.
Proof.
  unfold Typed.asString, JS.units.
  assert (Hb : forallb (fun c => (c <? 256)%N) (N_of_ascii <$> list_ascii_of_string s) = true).
  { apply forallb_forall. intros c Hc. apply in_map_iff in Hc as (a & <- & _).
    apply N.ltb_lt, N_ascii_bounded. }
  rewrite Hb. f_equal.
  assert (Hl : forall l : list ascii, ascii_of_N <$> (N_of_ascii <$> l) = l).
  { induction l as [|a l IH]; [done|]. by rewrite !fmap_cons, ascii_N_embedding, IH. }
  rewrite Hl. apply string_of_list_ascii_of_string.
Qed.

Lemma stringField_put_ne (key key' : string) (v : JSON.value) (ms : list (list N * JSON.value)) :
  JS.units key <> JS.units key' ->
  Typed.stringField key (JSON.put (JS.units key') v ms) = Typed.stringField key ms.
Proof.
  intros Hne. unfold Typed.stringField, JSON.field. by rewrite member_put_ne.
Qed.

Lemma asScene_withId (id : string) (v : JSON.value) (scene : Scene.t) :
  Typed.asScene v = Some scene ->
  Typed.asScene (AppJS.withId id v) = Some (Scene.with_id id scene).
Proof.
  destruct v as [| | | | |ms]; try discriminate. unfold AppJS.withId. simpl.
  rewrite !stringField_put_ne by (vm_compute; discriminate).
  unfold Typed.optionalStringField at 2, JSON.field. rewrite member_put_eq, asString_units.
  simpl. destruct (Typed.optionalStringField "id" ms) as [i|]; [|discriminate]. simpl.
  destruct (Typed.stringField "title" ms); [|discriminate]. simpl.
  destruct (Typed.stringField "description" ms); [|discriminate]. simpl.
  destruct (Typed.stringField "dialogue" ms); [|discriminate]. simpl.
  destruct (Typed.stringField "imagePrompt" ms); [|discriminate]. simpl.
  by intros [= <-].
Qed.

Lemma mapM_withIds (randomUUID : nat -> string) (xs : list JSON.value) (ss : list Scene.t)
    (k0 : nat) :
  mapM Typed.asScene xs = Some ss ->
  exists ss',
    mapM Typed.asScene (imap (fun k x => AppJS.withId (randomUUID (k0 + k)%nat) x) xs) = Some ss'
    /\ Some <$> ss' = App.scenesWithIds randomUUID k0 (Some <$> ss).
Proof.
  revert ss k0. induction xs as [|x xs IH]; intros ss k0 H.
  - injection H as <-. by exists [].
  - simpl in H. destruct (Typed.asScene x) as [scene|] eqn:Hx; [|discriminate]. simpl in H.
    destruct (mapM Typed.asScene xs) as [rest|] eqn:Hxs; [|discriminate]. simpl in H.
    injection H as <-.
    destruct (IH rest (S k0) eq_refl) as (rest' & Hm & Hr).
    exists (Scene.with_id (randomUUID k0) scene :: rest'). split.
    + apply mapM_Some. rewrite imap_cons. constructor.
      * rewrite Nat.add_0_r. by apply asScene_withId.
      * apply mapM_Some in Hm. erewrite imap_ext; [exact Hm|].
        intros k y _. simpl. by replace (k0 + S k)%nat with (S k0 + k)%nat by lia.
    + rewrite !fmap_cons. simpl. by rewrite <- Hr.
Qed.

Lemma generation_agrees (randomUUID : nat -> string) (settled : Settled JSON.value)
    (settled' : Settled MovieScript.t) (st : AppJS.State) (st' : App.State) :
  Typed.asSettled settled = Some settled' ->
  Typed.asState st = Some st' ->
  Typed.asState (AppJS.handleGenerateScript randomUUID settled st).1
  = Some (state_of (App.handleGenerateScript randomUUID settled' st')).
Proof.
  intros Hsettled Hst.
  assert (Hcells : App.idea st' = AppJS.idea st /\ App.isLoading st' = AppJS.isLoading st
                   /\ App.error st' = AppJS.error st
                   /\ App.saveTrigger st' = AppJS.saveTrigger st).
  { unfold Typed.asState in Hst. destruct (AppJS.movieScript st) as [v|].
    - destruct (Typed.asMovieScript v); [|discriminate]. by injection Hst as <-.
    - by injection Hst as <-. }
  destruct Hcells as (Hi & Hl & He & Hs).
  rewrite handleGenerateScript_run, Hi.
  unfold AppJS.handleGenerateScript, AppJS.effects, state_of. simpl.
  destruct (negb (JS.truthy (JS.trim (AppJS.idea st)))); simpl.
  - unfold Typed.asState in *. simpl. rewrite Hl, Hs.
    destruct (AppJS.movieScript st) as [v|].
    + destruct (Typed.asMovieScript v); [|discriminate]. by injection Hst as <-.
    + by injection Hst as <-.
  - unfold AppJS.afterAwait. destruct settled as [e|v]; simpl in Hsettled.
    + injection Hsettled as <-. unfold Typed.asState. simpl. by rewrite Hs.
    + destruct (Typed.asMovieScript v) as [script|] eqn:Hv; [|discriminate].
      injection Hsettled as <-.
      destruct v as [| | | | |ms]; try discriminate Hv. simpl in Hv.
      destruct (Typed.stringField "title" ms) as [title|] eqn:Ht; [|discriminate]. simpl in Hv.
      destruct (Typed.stringField "genre" ms) as [genre|] eqn:Hg; [|discriminate]. simpl in Hv.
      destruct (JSON.field "scenes" ms) as [[| | | |xs|]|] eqn:Hf; try discriminate Hv.
      destruct (mapM Typed.asScene xs) as [ss|] eqn:Hxs; [|discriminate]. simpl in Hv.
      injection Hv as <-.
      unfold AppJS.scenesOf. rewrite Hf. simpl.
      destruct (mapM_withIds randomUUID xs ss 0 Hxs) as (ss' & Hm & Hss).
      unfold Typed.asState. simpl.
      rewrite !stringField_put_ne by (vm_compute; discriminate). rewrite Ht, Hg. simpl.
      unfold JSON.field. rewrite member_put_eq. simpl in Hm. rewrite Hm. simpl.
      unfold MovieScript.with_scenes. simpl. by rewrite Hss, Hs.
Qed.

(** * Further properties of the code *)

(** ** The Scene Store, further *)


Lemma JSArray_length_set_inside {A} (a : list (option A)) (i : Z) (v : option A) :
  0 <= i < JSArray.length a -> JSArray.length (JSArray.set a i v) = JSArray.length a.
Proof. intros Hi. rewrite JSArray_length_set. destruct (decide (i < 0)); lia. Qed.

Lemma JSArray_length_set_le {A} (a : list (option A)) (i : Z) (v : option A) :
  JSArray.length a <= JSArray.length (JSArray.set a i v).
Proof. rewrite JSArray_length_set. destruct (decide (i < 0)); lia. Qed.



(** The script after a swap of two slots that are inside the array. *)
Lemma handleReorderScene_inside (cs : MovieScript.t) (i : Z) (d : Direction) :
  let s := MovieScript.scenes cs in
  let t := targetIndex i d in
  0 <= t < JSArray.length s ->
  handleReorderScene i d (Some cs)
  = Some (MovieScript.with_scenes
            (JSArray.set (JSArray.set s i (JSArray.get s t)) t (JSArray.get s i)) cs).
Proof.
  intros s t Ht. unfold handleReorderScene, JSArray.spread. fold s t.
  destruct (decide (t < 0 \/ t >= JSArray.length s)); [lia|done].
Qed.



(** A reorder from a card of a script without holes and with pairwise
    distinct identifiers leaves a script without holes, of the same length,
    with pairwise distinct identifiers: the keys of the cards stay unique. *)
Theorem reorder_keeps_unique_identifiers (cs : MovieScript.t) (i : Z) (d : Direction) :
  let s := MovieScript.scenes cs in
  all_present s -> NoDup (scene_ids cs) -> 0 <= i < JSArray.length s ->
  exists cs', handleReorderScene i d (Some cs) = Some cs' /\
    all_present (MovieScript.scenes cs') /\
    NoDup (scene_ids cs') /\
    JSArray.length (MovieScript.scenes cs') = JSArray.length s.
Proof.
  intros s Hall Hnd Hi.
  destruct (decide (targetIndex i d < 0 \/ targetIndex i d >= JSArray.length s)) as [Hout|Hin].
  - exists cs. split; [by apply handleReorderScene_guard|done].
  - assert (Ht : 0 <= targetIndex i d < JSArray.length s) by lia.
    rewrite handleReorderScene_inside by done. fold s.
    eexists. split; [reflexivity|]. simpl.
    pose proof (JSArray_swap_Permutation s i (targetIndex i d) Hi Ht) as Hperm.
    split; [|split].
    + unfold all_present. by rewrite Hperm.
    + rewrite (scene_ids_Permutation cs); [done|]. simpl. exact Hperm.
    + rewrite !JSArray_length_set_inside; [done|lia|].
      rewrite JSArray_length_set_inside; lia.
Qed.

Lemma reorder_keeps_unique_identifiers_witness :
  let cs := MovieScript.mk "T" "G"
              [Some (Scene.mk (Some "a") "S0" "" "" "");
               Some (Scene.mk (Some "b") "S1" "" "" "")] in
  exists cs', handleReorderScene 0 down (Some cs) = Some cs' /\ NoDup (scene_ids cs').
Proof.
  intros cs.
  assert (Hall : all_present (MovieScript.scenes cs)) by (repeat constructor; by eexists).
  assert (Hnd : NoDup (scene_ids cs)).
  { unfold scene_ids. simpl. apply NoDup_cons. split; [|apply NoDup_singleton].
    rewrite list_elem_of_singleton. discriminate. }
  assert (Hi : 0 <= 0 < JSArray.length (MovieScript.scenes cs))
    by (unfold JSArray.length; simpl; lia).
  destruct (reorder_keeps_unique_identifiers cs 0 down Hall Hnd Hi) as (cs' & Hr & _ & Hn & _).
  exists cs'. split; [exact Hr|exact Hn].
Defined.

(** Whatever the index, the direction and the scene: [update] and
    [reorder] give a script when there is one and none when there is none,
    keep its title and genre and never make its array of scenes shorter. *)
Theorem store_keeps_title_genre_and_slots (i : Z) (d : Direction) (newScene : Scene.t)
    (cs : MovieScript.t) :
  (exists cs', handleUpdateScene i newScene (Some cs) = Some cs' /\
     MovieScript.title cs' = MovieScript.title cs /\
     MovieScript.genre cs' = MovieScript.genre cs /\
     JSArray.length (MovieScript.scenes cs) <= JSArray.length (MovieScript.scenes cs')) /\
  (exists cs', handleReorderScene i d (Some cs) = Some cs' /\
     MovieScript.title cs' = MovieScript.title cs /\
     MovieScript.genre cs' = MovieScript.genre cs /\
     JSArray.length (MovieScript.scenes cs) <= JSArray.length (MovieScript.scenes cs')) /\
  handleUpdateScene i newScene None = None /\
  handleReorderScene i d None = None.
Proof.
  split; [|split; [|done]].
  - eexists. split; [reflexivity|]. simpl. repeat split. apply JSArray_length_set_le.
  - unfold handleReorderScene, JSArray.spread.
    destruct (decide _) as [Hout|Hin].
    + exists cs. repeat split. lia.
    + eexists. split; [reflexivity|]. simpl. repeat split.
      etrans; [|apply JSArray_length_set_le]. apply JSArray_length_set_le.
Qed.

(** [update] writes by position. When the scene below has moved up
    ([reorder(i+1, up)]) and the draft of the scene that was at [i] is then
    written with the index [i] of before, the draft lands on the scene that
    moved in: index [i] holds the draft, index [i+1] holds the scene that
    the draft was made of, and the scene that moved is in neither; all other
    entries and the length are as before. A draft with the identifier of its
    scene puts that identifier at both indices. *)
Theorem update_after_reorder_overwrites (cs : MovieScript.t) (i : Z) (draft : Scene.t) :
  let s := MovieScript.scenes cs in
  0 <= i -> i + 1 < JSArray.length s ->
  exists cs1 cs2,
    handleReorderScene (i + 1) up (Some cs) = Some cs1 /\
    handleUpdateScene i draft (Some cs1) = Some cs2 /\
    let s2 := MovieScript.scenes cs2 in
    JSArray.get s2 i = Some draft /\
    JSArray.get s2 (i + 1) = JSArray.get s i /\
    (forall j, j <> i -> j <> i + 1 -> JSArray.get s2 j = JSArray.get s j) /\
    JSArray.length s2 = JSArray.length s /\
    (forall old, JSArray.get s i = Some old -> Scene.id draft = Scene.id old ->
       identifierAt cs2 i = identifierAt cs2 (i + 1)).
Proof.
  intros s Hi Hlen.
  assert (Ht : targetIndex (i + 1) up = i) by (simpl; lia).
  rewrite handleReorderScene_inside by (fold s; rewrite Ht; lia). fold s. rewrite Ht.
  eexists. eexists. split; [reflexivity|]. split; [reflexivity|]. simpl.
  unfold JSArray.spread.
  set (s1 := JSArray.set (JSArray.set s (i + 1) (JSArray.get s i)) i (JSArray.get s (i + 1))).
  assert (Hgi : JSArray.get (JSArray.set s1 i (Some draft)) i = Some draft)
    by (apply JSArray_get_set_eq; lia).
  assert (Hgn : JSArray.get (JSArray.set s1 i (Some draft)) (i + 1) = JSArray.get s i).
  { rewrite JSArray_get_set_ne by lia. subst s1.
    rewrite JSArray_get_set_ne by lia. apply JSArray_get_set_eq. lia. }
  split; [exact Hgi|]. split; [exact Hgn|]. split; [|split].
  - intros j Hji Hjn. subst s1. rewrite !JSArray_get_set_ne by lia. done.
  - assert (Hl0 : JSArray.length (JSArray.set s (i + 1) (JSArray.get s i)) = JSArray.length s)
      by (apply JSArray_length_set_inside; lia).
    assert (Hl1 : JSArray.length s1 = JSArray.length s)
      by (subst s1; rewrite JSArray_length_set_inside; lia).
    rewrite JSArray_length_set_inside; lia.
  - intros old Hold Hid. unfold identifierAt. simpl. fold s1.
    rewrite Hgi, Hgn, Hold. simpl. by rewrite Hid.
Qed.

Lemma update_after_reorder_overwrites_witness :
  let a := Scene.mk (Some "a") "A" "" "" "" in
  let b := Scene.mk (Some "b") "B" "" "" "" in
  let cs := MovieScript.mk "T" "G" [Some a; Some b] in
  let draft := applyEdits [(SceneCard.title, "A2")] a in
  exists cs1 cs2,
    handleReorderScene 1 up (Some cs) = Some cs1 /\
    handleUpdateScene 0 draft (Some cs1) = Some cs2 /\
    MovieScript.scenes cs2 = [Some draft; Some a].
Proof.
  intros a b cs draft.
  assert (H0 : 0 <= 0) by lia.
  assert (Hl : 0 + 1 < JSArray.length (MovieScript.scenes cs))
    by (unfold JSArray.length; simpl; lia).
  destruct (update_after_reorder_overwrites cs 0 draft H0 Hl)
    as (cs1 & cs2 & Hr & Hu & _).
  exists cs1, cs2. split; [exact Hr|]. split; [exact Hu|].
  vm_compute in Hr. injection Hr as <-. vm_compute in Hu. injection Hu as <-. reflexivity.
Defined.

(** ** The generation, further *)

Lemma scenesWithIds_all_present (randomUUID : nat -> string) (k : nat)
    (scenes : list (option Scene.t)) :
  all_present scenes -> all_present (App.scenesWithIds randomUUID k scenes).
Proof.
  intros Hall. revert k. induction Hall as [|slot scenes [scene ->] _ IH]; intros k; simpl.
  - constructor.
  - constructor; [by eexists|apply IH].
Qed.

Lemma scenesWithIds_length (randomUUID : nat -> string) (k : nat)
    (scenes : list (option Scene.t)) :
  length (App.scenesWithIds randomUUID k scenes) = length scenes.
Proof.
  revert k. induction scenes as [|[scene|] scenes IH]; intros k; simpl; [done| |];
    by rewrite IH.
Qed.

Lemma scenesWithIds_ids (randomUUID : nat -> string) (k : nat)
    (scenes : list (option Scene.t)) :
  all_present scenes ->
  Scene.id <$> JSArray.present (App.scenesWithIds randomUUID k scenes)
  = (fun j => Some (randomUUID j)) <$> seq k (length scenes).
Proof.
  intros Hall. revert k. induction Hall as [|slot scenes [scene ->] _ IH]; intros k; [done|].
  unfold JSArray.present in *. simpl. by rewrite IH.
Qed.

(** With a source of identifiers that never repeats, the script that a
    generation stores from a resolved script without holes has no holes and
    as many scenes; the scene at each position is the resolved one with the
    identifier of that position, an identifier in the response being
    replaced; and the identifiers are all there and pairwise distinct. *)
Theorem generated_identifiers_unique (randomUUID : nat -> string) (script : MovieScript.t)
    (st : App.State) :
  (forall j k, randomUUID j = randomUUID k -> j = k) ->
  all_present (MovieScript.scenes script) ->
  JS.trim (App.idea st) <> "" ->
  exists stored,
    App.movieScript (state_of (App.handleGenerateScript randomUUID (Fulfilled script) st))
    = Some stored /\
    all_present (MovieScript.scenes stored) /\
    length (MovieScript.scenes stored) = length (MovieScript.scenes script) /\
    (forall k scene, MovieScript.scenes script !! k = Some (Some scene) ->
       MovieScript.scenes stored !! k = Some (Some (Scene.with_id (randomUUID k) scene))) /\
    Forall is_Some (scene_ids stored) /\
    NoDup (scene_ids stored).
Proof.
  intros Hinj Hall Hidea. rewrite handleGenerateScript_run.
  destruct (negb (JS.truthy (JS.trim (App.idea st)))) eqn:Hblank.
  { apply truthy_false_iff in Hblank. by destruct Hidea. }
  eexists. split; [reflexivity|]. simpl.
  split; [by apply scenesWithIds_all_present|].
  split; [apply scenesWithIds_length|].
  split.
  { intros k scene Hk. rewrite (scenesWithIds_lookup _ _ 0 k Hall), Hk. done. }
  unfold scene_ids. simpl. rewrite scenesWithIds_ids by done. split.
  - apply Forall_fmap, Forall_forall. intros j _. by eexists.
  - apply NoDup_fmap_2; [|apply NoDup_seq].
    intros j k [= Hjk]. by apply Hinj.
Qed.

Lemma uuids_inj (j k : nat) : Sample.uuids j = Sample.uuids k -> j = k.
Proof.
  unfold Sample.uuids. intros H.
  apply (inj (String.app "uuid-")) in H. by apply (inj pretty) in H.
Qed.

Lemma generated_identifiers_unique_witness :
  exists stored,
    App.movieScript (state_of (App.handleGenerateScript Sample.uuids
                                 (Fulfilled Sample.generated)
                                 (Sample.shell "A robot learns to paint")))
    = Some stored /\
    scene_ids stored = [Some "uuid-0"; Some "uuid-1"] /\
    NoDup (scene_ids stored).
Proof.
  assert (Hall : all_present (MovieScript.scenes Sample.generated))
    by (repeat constructor; by eexists).
  assert (Hne : JS.trim (App.idea (Sample.shell "A robot learns to paint")) <> "")
    by (vm_compute; discriminate).
  destruct (generated_identifiers_unique Sample.uuids Sample.generated
              (Sample.shell "A robot learns to paint") uuids_inj Hall Hne)
    as (stored & Hs & _ & _ & _ & _ & Hnd).
  exists stored. split; [exact Hs|]. split; [|exact Hnd].
  vm_compute in Hs. injection Hs as <-. reflexivity.
Defined.

(** A generation does not merge: with a given idea and a given answer of
    the client, the script, the error and the loading flag after it, and
    what it sent, are the same whatever script, error and flag were there
    before; the idea and the counter of the save signal are not touched. *)
Theorem generate_ignores_previous (randomUUID : nat -> string) (settled : Settled MovieScript.t)
    (st st' : App.State) :
  App.idea st = App.idea st' ->
  JS.trim (App.idea st) <> "" ->
  let run := App.handleGenerateScript randomUUID settled st in
  let run' := App.handleGenerateScript randomUUID settled st' in
  App.movieScript (state_of run) = App.movieScript (state_of run') /\
  App.error (state_of run) = App.error (state_of run') /\
  App.isLoading (state_of run) = App.isLoading (state_of run') /\
  trace_of run = trace_of run' /\
  App.idea (state_of run) = App.idea st /\
  App.saveTrigger (state_of run) = App.saveTrigger st.
Proof.
  intros Hidea Hne run run'. subst run run'. rewrite !handleGenerateScript_run, <- Hidea.
  destruct (negb (JS.truthy (JS.trim (App.idea st)))) eqn:Hblank.
  { apply truthy_false_iff in Hblank. by destruct Hne. }
  by destruct settled.
Qed.

Lemma generate_ignores_previous_witness :
  App.movieScript (state_of (App.handleGenerateScript Sample.uuids (Fulfilled Sample.generated)
                               (Sample.shell "A robot learns to paint")))
  = App.movieScript (state_of (App.handleGenerateScript Sample.uuids (Fulfilled Sample.generated)
                                 (App.mk "A robot learns to paint" None false None 0))).
Proof.
  assert (Hne : JS.trim (App.idea (Sample.shell "A robot learns to paint")) <> "")
    by (vm_compute; discriminate).
  exact (proj1 (generate_ignores_previous Sample.uuids (Fulfilled Sample.generated)
                  (Sample.shell "A robot learns to paint")
                  (App.mk "A robot learns to paint" None false None 0) eq_refl Hne)).
Defined.

Lemma trimStart_empty_iff (s : string) :
  JS.trimStart s = "" <-> Forall (fun c => JS.is_trim_space c = true) (list_ascii_of_string s).
Proof.
  induction s as [|c s IH]; simpl.
  - split; [constructor|done].
  - destruct (JS.is_trim_space c) eqn:Hc.
    + rewrite IH. split; [by constructor|by inversion 1].
    + split; [discriminate|]. inversion 1; congruence.
Qed.

Lemma trimStart_head (s : string) (c : ascii) (r : string) :
  JS.trimStart s = String c r -> JS.is_trim_space c = false.
Proof.
  induction s as [|c' s IH]; simpl; [discriminate|].
  destruct (JS.is_trim_space c') eqn:Hc; [exact IH|]. by intros [= <- _].
Qed.

Lemma reverse_empty_iff (s : string) : JS.reverse s = "" <-> s = "".
Proof.
  unfold JS.reverse. split; [|by intros ->].
  intros H. apply (f_equal list_ascii_of_string) in H.
  rewrite list_ascii_of_string_of_list_ascii in H. simpl in H.
  destruct s as [|c s]; [done|]. simpl in H.
  by destruct (rev (list_ascii_of_string s)).
Qed.

Lemma trim_empty_iff (s : string) :
  JS.trim s = "" <-> Forall (fun c => JS.is_trim_space c = true) (list_ascii_of_string s).
Proof.
  unfold JS.trim. rewrite reverse_empty_iff, trimStart_empty_iff.
  unfold JS.reverse at 1. rewrite list_ascii_of_string_of_list_ascii.
  rewrite <- trimStart_empty_iff.
  destruct (JS.trimStart s) as [|c r] eqn:Hs; simpl.
  - split; [done|]. intros _. constructor.
  - split; [|discriminate]. intros H.
    apply Forall_app in H as [_ H]. inversion H as [|?? Hc _]; subst.
    apply trimStart_head in Hs. congruence.
Qed.

(** The Shell calls the Script Client exactly when the idea has a character
    that is no white space; it then calls it once, with the idea as it was
    typed, blanks around it included. For an idea of white space alone (or
    empty) it sends nothing. *)
Theorem generate_calls_iff_not_blank (randomUUID : nat -> string)
    (settled : Settled MovieScript.t) (st : App.State) :
  let tr := trace_of (App.handleGenerateScript randomUUID settled st) in
  let blank := Forall (fun c => JS.is_trim_space c = true)
                 (list_ascii_of_string (App.idea st)) in
  (blank <-> tr = []) /\
  (~ blank <->
   omap (fun e => match e with GenerateMovieScript i => Some i | _ => None end) tr
   = [App.idea st]).
Proof.
  intros tr blank. subst tr blank. rewrite <- trim_empty_iff, handleGenerateScript_run.
  pose proof (truthy_false_iff (JS.trim (App.idea st))) as Hempty.
  destruct (negb (JS.truthy (JS.trim (App.idea st)))); unfold trace_of; simpl.
  - assert (He : JS.trim (App.idea st) = "") by (by apply Hempty).
    split; [done|]. split; [done|discriminate].
  - assert (Hne : JS.trim (App.idea st) <> "").
    { intros He. apply Hempty in He. discriminate He. }
    destruct settled; simpl; (split; [split; [done|discriminate]|done]).
Qed.

(** ** The Scene View, further *)

Ltac unfold_card :=
  unfold Controls.typeInto, Controls.clickSave, Controls.clickCancel, Controls.clickRetry,
    Controls.clickMove, Controls.saveSignal, Controls.sceneChange,
    SceneCard.clickEditScene, SceneCard.saveTriggerEffect, SceneCard.useEffect,
    SceneCard.handleRetryGeneration, SceneCard.handleCancel, SceneCard.handleInputChange,
    SceneCard.handleSave, SceneCard.sceneEffect, SceneCard.triggerImageGeneration,
    Service.generateImage, SceneCard.setIsGeneratingImage, SceneCard.setImageError,
    SceneCard.setImageUrl, SceneCard.setIsEditing, SceneCard.setEditedScene.

(** The state of a card after an image generation. *)
Lemma triggerImageGeneration_state p prompt upstream st :
  state_of (SceneCard.triggerImageGeneration p prompt upstream st)
  = match Service.generateImage_try upstream with
    | inr base64Data =>
        SceneCard.mk (SceneCard.isEditing st) (SceneCard.editedScene st)
          (SceneCard.dataUrl base64Data) false None
    | inl _ =>
        SceneCard.mk (SceneCard.isEditing st) (SceneCard.editedScene st)
          (SceneCard.placeholder (Scene.imagePrompt (SceneCard.scene p))
             (SceneCard.sceneNumber p))
          false (Some "Oops! The image could not be generated.")
    end.
Proof. unfold_card. by destruct (Service.generateImage_try upstream). Qed.

(** The state of a card after a save. *)
Lemma handleSave_state p upstream st :
  state_of (SceneCard.handleSave p upstream st)
  = if SceneCard.needsImage p st then
      match Service.generateImage_try upstream with
      | inr base64Data =>
          SceneCard.mk false (SceneCard.editedScene st) (SceneCard.dataUrl base64Data) false None
      | inl _ =>
          SceneCard.mk false (SceneCard.editedScene st)
            (SceneCard.placeholder (Scene.imagePrompt (SceneCard.scene p))
               (SceneCard.sceneNumber p))
            false (Some "Oops! The image could not be generated.")
      end
    else
      SceneCard.mk false (SceneCard.editedScene st) (SceneCard.imageUrl st)
        (SceneCard.isGeneratingImage st) (SceneCard.imageError st).
Proof.
  unfold_card. run_act.
  destruct (SceneCard.needsImage p st); [|done].
  by destruct (Service.generateImage_try upstream).
Qed.

(** An image generation requests one image, with the prompt it is given,
    and commits nothing. When the client returns data, the card shows them
    and has no error. When the client fails, the card shows the placeholder
    of the committed scene at the position of the card, whatever prompt the
    request was made with, and the error message of the card. In both cases
    the card is no longer generating, and its draft and its mode are as
    before. A retry is the generation with the prompt of the committed
    scene. *)
Theorem image_generation_outcome (p : SceneCard.Props) (prompt : string)
    (upstream : Settled Service.ImageResponse) (st : SceneCard.State) :
  let run := SceneCard.triggerImageGeneration p prompt upstream st in
  let after := state_of run in
  SceneCard.imageRequests (trace_of run) = [prompt] /\
  SceneCard.commits (trace_of run) = [] /\
  (forall base64Data, (Service.generateImage prompt upstream).2 = inr base64Data ->
     SceneCard.imageUrl after = SceneCard.dataUrl base64Data /\
     SceneCard.imageError after = None) /\
  (fails (Service.generateImage prompt upstream).2 ->
     SceneCard.imageUrl after
     = SceneCard.placeholder (Scene.imagePrompt (SceneCard.scene p)) (SceneCard.sceneNumber p) /\
     SceneCard.imageError after = Some "Oops! The image could not be generated.") /\
  SceneCard.isGeneratingImage after = false /\
  SceneCard.editedScene after = SceneCard.editedScene st /\
  SceneCard.isEditing after = SceneCard.isEditing st /\
  SceneCard.handleRetryGeneration p upstream st
  = SceneCard.triggerImageGeneration p (Scene.imagePrompt (SceneCard.scene p)) upstream st.
Proof.
  intros run after. subst after run.
  rewrite triggerImageGeneration_trace, triggerImageGeneration_state.
  unfold Service.generateImage, fails.
  destruct (Service.generateImage_try upstream) as [e|d]; simpl.
  - split; [done|]. split; [done|]. split; [intros b Hb; discriminate Hb|].
    split; [intros _; done|]. done.
  - split; [done|]. split; [done|]. split; [intros b [= <-]; done|].
    split; [intros [e' He]; discriminate He|]. done.
Qed.

(** A save whose request fails, with a draft of another prompt: the card
    shows the placeholder of the prompt of before. *)
Lemma image_generation_outcome_witness :
  SceneCard.imageUrl
    (state_of (SceneCard.triggerImageGeneration (Sample.props 0) "a new prompt"
                 Sample.networkError Sample.editing))
  = SceneCard.placeholder "ab" 2.
Proof.
  destruct (image_generation_outcome (Sample.props 0) "a new prompt" Sample.networkError
              Sample.editing) as (_ & _ & _ & Hfail & _).
  assert (Hf : fails (Service.generateImage "a new prompt" Sample.networkError).2)
    by (by eexists).
  exact (proj1 (Hfail Hf)).
Defined.

(** Whatever was typed into the inputs, a cancel puts the committed scene
    back into the draft and leaves the editing mode; it sends nothing, and
    the image, its error and the generating flag are as they were. *)
Theorem cancel_discards_edits (p : SceneCard.Props) (st : SceneCard.State)
    (edits : list (SceneCard.Field * string)) :
  let typed :=
    fold_left (fun s e => state_of (SceneCard.handleInputChange e.1 e.2 s)) edits st in
  let run := SceneCard.handleCancel p typed in
  SceneCard.editedScene typed = applyEdits edits (SceneCard.editedScene st) /\
  state_of run
  = SceneCard.mk false (SceneCard.scene p) (SceneCard.imageUrl st)
      (SceneCard.isGeneratingImage st) (SceneCard.imageError st) /\
  trace_of run = [].
Proof.
  intros typed run. subst run typed.
  assert (H : forall s,
    fold_left (fun s e => state_of (SceneCard.handleInputChange e.1 e.2 s)) edits s
    = SceneCard.mk (SceneCard.isEditing s) (applyEdits edits (SceneCard.editedScene s))
        (SceneCard.imageUrl s) (SceneCard.isGeneratingImage s) (SceneCard.imageError s)).
  { unfold applyEdits. induction edits as [|e edits IH]; intros s; simpl.
    - by destruct s.
    - by rewrite IH. }
  rewrite H. done.
Qed.

(** "Save all" reaches a card as a render under a counter that is one more,
    and the save effect runs in that render, its dependency [saveTrigger]
    having changed. For a card that is editing, this run of the effect
    calls [handleSave], as "Save" does, and that call commits the draft of
    the render once; for a card that is not editing the run does nothing and
    sends nothing. This is about the one run of the effect: the effect runs
    again in every later render in which a dependency differs (a new
    [onUpdateScene] of a render of the parent is one), and each such run on
    a card that is still editing is one more call of [handleSave]. *)
Theorem save_signal_saves_editing_cards (p : SceneCard.Props) (st : SceneCard.State)
    (upstream : Settled Service.ImageResponse) :
  0 <= SceneCard.saveTrigger p ->
  (SceneCard.isEditing st = true ->
   Controls.saveSignal p upstream st = SceneCard.handleSave (Controls.signalled p) upstream st /\
   SceneCard.commits (trace_of (Controls.saveSignal p upstream st))
   = [SceneCard.editedScene st]) /\
  (SceneCard.isEditing st = false -> Controls.saveSignal p upstream st = (tt, st, [])).
Proof.
  intros Hp.
  assert (Hdiff : SceneCard.saveDepsDiffer p st (Controls.signalled p) st = true).
  { unfold SceneCard.saveDepsDiffer, Controls.signalled. simpl.
    destruct (Z.eqb_spec (SceneCard.saveTrigger p) (SceneCard.saveTrigger p + 1)); [lia|done]. }
  assert (Hpos : (SceneCard.saveTrigger (Controls.signalled p) >? 0) = true).
  { unfold Controls.signalled. simpl.
    destruct (Z.gtb_spec (SceneCard.saveTrigger p + 1) 0); [done|lia]. }
  assert (Hrun : Controls.saveSignal p upstream st
                 = if SceneCard.isEditing st
                   then SceneCard.handleSave (Controls.signalled p) upstream st
                   else (tt, st, [])).
  { unfold Controls.saveSignal, SceneCard.saveTriggerEffect, SceneCard.useEffect.
    run_act. rewrite Hdiff, Hpos. simpl.
    destruct (SceneCard.isEditing st); [|done].
    by destruct (SceneCard.handleSave _ _ _) as [[[] ?] ?]. }
  rewrite Hrun. split; intros ->; [|done].
  split; [done|].
  rewrite handleSave_trace, triggerImageGeneration_trace.
  destruct (SceneCard.needsImage _ st); [|done].
  by destruct (Service.generateImage_try upstream).
Qed.

(** The first "save all" while a card has a draft with a new prompt. *)
Lemma save_signal_saves_editing_cards_witness :
  SceneCard.commits (trace_of (Controls.saveSignal (Sample.props 0) Sample.imageResponse
                                 Sample.editing))
  = [SceneCard.editedScene Sample.editing].
Proof.
  assert (H0 : 0 <= SceneCard.saveTrigger (Sample.props 0)) by (simpl; lia).
  destruct (save_signal_saves_editing_cards (Sample.props 0) Sample.editing
              Sample.imageResponse H0) as [Hed _].
  exact (proj2 (Hed eq_refl)).
Defined.

(** ** A card over time *)

Lemma saveTriggerEffect_run p upstream st :
  SceneCard.saveTriggerEffect p upstream st
  = if (SceneCard.saveTrigger p >? 0) && SceneCard.isEditing st
    then SceneCard.handleSave p upstream st else (tt, st, []).
Proof.
  unfold SceneCard.saveTriggerEffect. run_act.
  destruct (_ && _); [|done]. by destruct (SceneCard.handleSave _ _ _) as [[[] ?] ?].
Qed.

Lemma clickSave_run p upstream st :
  Controls.clickSave p upstream st
  = if SceneCard.isEditing st && negb (SceneCard.isGeneratingImage st)
    then SceneCard.handleSave p upstream st else (tt, st, []).
Proof.
  unfold Controls.clickSave. run_act.
  destruct (_ && _); [|done]. by destruct (SceneCard.handleSave _ _ _) as [[[] ?] ?].
Qed.

Lemma clickCancel_run p st :
  Controls.clickCancel p st
  = if SceneCard.isEditing st && negb (SceneCard.isGeneratingImage st)
    then (tt, SceneCard.mk false (SceneCard.scene p) (SceneCard.imageUrl st)
                (SceneCard.isGeneratingImage st) (SceneCard.imageError st), [])
    else (tt, st, []).
Proof. unfold_card. run_act. by destruct (_ && _). Qed.

Lemma clickMove_run p direction st :
  Controls.clickMove p direction st
  = (tt, st,
     if SceneCard.isEditing st
        || match direction with up => SceneCard.isFirst p | down => SceneCard.isLast p end
     then [] else [OnReorderScene (SceneCard.index p) direction]).
Proof. unfold_card. run_act. by destruct (_ || _). Qed.

Lemma sceneChange_run newObject p p' st :
  Controls.sceneChange newObject p p' st
  = if newObject || negb (SceneCard.sceneNumber p =? SceneCard.sceneNumber p')
    then (tt, SceneCard.mk (SceneCard.isEditing st) (SceneCard.scene p')
                (SceneCard.placeholder (Scene.imagePrompt (SceneCard.scene p'))
                   (SceneCard.sceneNumber p'))
                false None, [])
    else (tt, st, []).
Proof. unfold_card. run_act. by destruct (_ || _). Qed.

Lemma clickEditScene_run p upstream st :
  SceneCard.clickEditScene p upstream st
  = if SceneCard.isEditing st then (tt, st, [])
    else SceneCard.saveTriggerEffect p upstream
           (SceneCard.mk true (SceneCard.editedScene st) (SceneCard.imageUrl st)
              (SceneCard.isGeneratingImage st) (SceneCard.imageError st)).
Proof.
  unfold SceneCard.clickEditScene, SceneCard.useEffect, SceneCard.saveDepsDiffer,
    SceneCard.setIsEditing.
  run_act. destruct (SceneCard.isEditing st) eqn:Hed; [done|].
  simpl. rewrite Z.eqb_refl. simpl.
  by destruct (SceneCard.saveTriggerEffect _ _ _) as [[[] ?] ?].
Qed.

Lemma typeInto_run p name value upstream st :
  Controls.typeInto p name value upstream st
  = if SceneCard.isEditing st
    then SceneCard.saveTriggerEffect p upstream
           (SceneCard.mk true
              (SceneCard.withField name value (SceneCard.editedScene st))
              (SceneCard.imageUrl st) (SceneCard.isGeneratingImage st)
              (SceneCard.imageError st))
    else (tt, st, []).
Proof.
  unfold Controls.typeInto, SceneCard.handleInputChange, SceneCard.setEditedScene.
  run_act. destruct (SceneCard.isEditing st) eqn:Hed; [|done].
  cbn. rewrite ?Hed.
  by destruct (SceneCard.saveTriggerEffect _ _ _) as [[[] ?] ?].
Qed.

Lemma clickRetry_run p upstream upstream' st :
  Controls.clickRetry p upstream upstream' st
  = if Controls.retryShown st then
      let r := SceneCard.triggerImageGeneration p (Scene.imagePrompt (SceneCard.scene p))
                 upstream st in
      let r' := SceneCard.saveTriggerEffect p upstream' (state_of r) in
      (tt, state_of r', (trace_of r ++ trace_of r')%list)
    else (tt, st, []).
Proof.
  unfold Controls.clickRetry, SceneCard.handleRetryGeneration.
  run_act. destruct (Controls.retryShown st); [|done].
  destruct (SceneCard.triggerImageGeneration _ _ _ _) as [[[] s1] t1]. simpl.
  by destruct (SceneCard.saveTriggerEffect _ _ _) as [[[] s2] t2].
Qed.

Lemma placeholder_isPlaceholder prompt position :
  SceneCard.isPlaceholder (SceneCard.placeholder prompt position).
Proof. by eexists. Qed.

(** A save leaves a settled card settled, under props with the same scene. *)
Lemma settled_after_save p p' q upstream st :
  (SceneCard.isPlaceholder (SceneCard.imageUrl st)
   \/ exists base64Data, SceneCard.imageUrl st = SceneCard.dataUrl base64Data) ->
  (SceneCard.imageError st = None
   \/ SceneCard.imageError st = Some "Oops! The image could not be generated.") ->
  SceneCard.isGeneratingImage st = false ->
  Scene.id (SceneCard.editedScene st) = Scene.id (SceneCard.scene p) ->
  SceneCard.scene p' = SceneCard.scene p -> 0 <= SceneCard.saveTrigger p' ->
  cardSettled (Controls.mkCard p' (state_of (SceneCard.handleSave q upstream st))).
Proof.
  unfold cardSettled. simpl. intros Hurl Herr Hgen Hid Hscene Hpos.
  rewrite handleSave_state, Hscene.
  destruct (SceneCard.needsImage q st);
    [destruct (Service.generateImage_try upstream)|]; simpl;
    (split; [|split; [|split; [|split; [|split]]]]); try done; eauto.
  left. apply placeholder_isPlaceholder.
Qed.

Lemma commits_after_save q upstream st :
  SceneCard.commits (trace_of (SceneCard.handleSave q upstream st))
  = [SceneCard.editedScene st].
Proof.
  rewrite handleSave_trace, triggerImageGeneration_trace.
  destruct (SceneCard.needsImage q st); [|done].
  by destruct (Service.generateImage_try upstream).
Qed.

(** The save effect on a settled card: it runs a save or does nothing. *)
Lemma settled_after_effect p q upstream st :
  cardSettled (Controls.mkCard p st) ->
  SceneCard.scene q = SceneCard.scene p ->
  (SceneCard.saveTrigger q = SceneCard.saveTrigger p
   \/ 0 < SceneCard.saveTrigger q) ->
  let r := SceneCard.saveTriggerEffect q upstream st in
  cardSettled (Controls.mkCard q (state_of r)) /\
  Forall (fun s => Scene.id s = Scene.id (SceneCard.scene p)) (SceneCard.commits (trace_of r)).
Proof.
  intros Hc Hscene Hq r. subst r. rewrite saveTriggerEffect_run.
  pose proof Hc as (Hurl & Herr & Hgen & Hpos & Hed & Hid). simpl in *.
  destruct (Z.gtb_spec (SceneCard.saveTrigger q) 0) as [Hgt|Hle]; simpl.
  - destruct (SceneCard.isEditing st) eqn:He.
    + split; [apply (settled_after_save p); try done; lia|].
      rewrite commits_after_save. by repeat constructor.
    + split; [|constructor]. unfold cardSettled, state_of. simpl.
      rewrite He, Hscene. repeat split; try done; try lia.
  - split; [|constructor]. unfold cardSettled, state_of. simpl.
    rewrite Hscene. repeat split; try done; try lia.
Qed.

(** One action on a settled card: the action is in the model, the card
    after it is settled, and every scene that it commits carries the
    identifier of the scene of the card. *)
Lemma perform_settled (c : Controls.Card) (a : Controls.Action) :
  cardSettled c ->
  exists c' tr, Controls.perform c a = Some (c', tr) /\
    cardSettled c' /\
    Forall (fun s => Scene.id s = keyOf c) (SceneCard.commits tr) /\
    (Controls.keepsKey (keyOf c) a -> keyOf c' = keyOf c).
Proof.
  destruct c as [p st]. intros Hc.
  pose proof Hc as (Hurl & Herr & Hgen & Hpos & Hed & Hid). simpl in *.
  unfold keyOf. simpl.
  assert (Hin : Controls.inSave (Controls.mkCard p st) = false).
  { unfold Controls.inSave. simpl.
    destruct (SceneCard.isEditing st); [|by rewrite andb_false_r].
    rewrite Hed by done. done. }
  destruct a as [newScene len idx|upstream|upstream|name value upstream|upstream|
                 |upstream upstream'|direction];
    unfold Controls.perform, Controls.after; simpl Controls.props; simpl Controls.state.
  - (* the scene or the position changes *)
    rewrite Hin, sceneChange_run. eexists _, _. split; [reflexivity|].
    destruct newScene as [scene'|]; simpl.
    + split; [|split; [constructor|done]].
      unfold cardSettled, state_of. simpl. repeat split; try done; eauto.
      left. apply placeholder_isPlaceholder.
    + destruct (negb _); (split; [|split; [constructor|done]]);
        unfold cardSettled, state_of; simpl; repeat split; try done; eauto.
      left. apply placeholder_isPlaceholder.
  - (* the save signal *)
    unfold Controls.saveSignal, SceneCard.useEffect. run_act.
    assert (Hd : SceneCard.saveDepsDiffer p st (Controls.signalled p) st = true).
    { unfold SceneCard.saveDepsDiffer, Controls.signalled. simpl.
      destruct (Z.eqb_spec (SceneCard.saveTrigger p) (SceneCard.saveTrigger p + 1)); [lia|done]. }
    rewrite Hd.
    destruct (settled_after_effect p (Controls.signalled p) upstream st Hc eq_refl)
      as [Hs Hcm]; [right; simpl; lia|].
    destruct (SceneCard.saveTriggerEffect _ _ _) as [[[] s1] t1].
    eexists _, _. split; [reflexivity|]. done.
  - (* "Edit Scene" *)
    rewrite clickEditScene_run. destruct (SceneCard.isEditing st) eqn:He.
    + eexists _, _. split; [reflexivity|]. split; [done|]. split; [constructor|done].
    + set (st1 := SceneCard.mk true _ _ _ _).
      destruct (Z.gtb_spec (SceneCard.saveTrigger p) 0) as [Hgt|Hle].
      * rewrite saveTriggerEffect_run.
        destruct (Z.gtb_spec (SceneCard.saveTrigger p) 0); [|lia]. simpl.
        eexists _, _. split; [reflexivity|].
        split; [|split; [|done]].
        -- by apply (settled_after_save p).
        -- rewrite commits_after_save. by repeat constructor.
      * rewrite saveTriggerEffect_run.
        destruct (Z.gtb_spec (SceneCard.saveTrigger p) 0); [lia|]. simpl.
        eexists _, _. split; [reflexivity|]. split; [|split; [constructor|done]].
        unfold cardSettled, state_of. simpl. repeat split; try done. intros _. lia.
  - (* an input *)
    rewrite typeInto_run. destruct (SceneCard.isEditing st) eqn:He.
    + rewrite saveTriggerEffect_run, (Hed eq_refl). simpl.
      eexists _, _. split; [reflexivity|]. split; [|split; [constructor|done]].
      unfold cardSettled, state_of. simpl. rewrite withField_id.
      repeat split; try done.
    + eexists _, _. split; [reflexivity|]. split; [|split; [constructor|done]].
      unfold cardSettled, state_of. simpl. by rewrite He.
  - (* "Save" *)
    rewrite clickSave_run. destruct (_ && _).
    + eexists _, _. split; [reflexivity|]. split; [|split; [|done]].
      * by apply (settled_after_save p).
      * rewrite commits_after_save. by repeat constructor.
    + eexists _, _. split; [reflexivity|]. split; [done|]. split; [constructor|done].
  - (* "Cancel" *)
    rewrite clickCancel_run. destruct (_ && _).
    + eexists _, _. split; [reflexivity|]. split; [|split; [constructor|done]].
      unfold cardSettled, state_of. simpl. repeat split; try done.
    + eexists _, _. split; [reflexivity|]. split; [done|]. split; [constructor|done].
  - (* "Retry" *)
    rewrite clickRetry_run. destruct (Controls.retryShown st).
    + set (r := SceneCard.triggerImageGeneration _ _ _ _).
      assert (Hr : cardSettled (Controls.mkCard p (state_of r))).
      { subst r. rewrite triggerImageGeneration_state.
        destruct (Service.generateImage_try upstream); unfold cardSettled; simpl;
          repeat split; try done; eauto.
        left. apply placeholder_isPlaceholder. }
      destruct (settled_after_effect p p upstream' (state_of r) Hr eq_refl) as [Hs Hcm];
        [by left|].
      eexists _, _. split; [reflexivity|]. split; [exact Hs|]. split; [|done].
      unfold trace_of at 1. simpl. unfold SceneCard.commits. rewrite omap_app.
      apply Forall_app. split; [|exact Hcm].
      subst r. rewrite triggerImageGeneration_trace.
      destruct (Service.generateImage_try upstream); constructor.
    + eexists _, _. split; [reflexivity|]. split; [done|]. split; [constructor|done].
  - (* an arrow *)
    rewrite clickMove_run. eexists _, _. split; [reflexivity|].
    split; [done|]. split; [|done].
    unfold trace_of. simpl. destruct (_ || _); constructor.
Qed.

Lemma mount_settled (p : SceneCard.Props) :
  0 <= SceneCard.saveTrigger p -> cardSettled (Controls.mount p).
Proof.
  intros Hp. unfold cardSettled, Controls.mount, state_of. simpl.
  repeat split; try done; eauto. left. apply placeholder_isPlaceholder.
Qed.

Lemma run_settled (c : Controls.Card) (actions : list Controls.Action) :
  cardSettled c ->
  exists c' tr, Controls.run c actions = Some (c', tr) /\
    cardSettled c' /\
    (Forall (Controls.keepsKey (keyOf c)) actions ->
     keyOf c' = keyOf c /\
     Forall (fun s => Scene.id s = keyOf c) (SceneCard.commits tr)).
Proof.
  revert c. induction actions as [|a actions IH]; intros c Hc; simpl.
  - exists c, []. split; [done|]. split; [done|]. intros _. split; [done|constructor].
  - destruct (perform_settled c a Hc) as (c1 & tr1 & Hp & Hc1 & Hcm1 & Hk1).
    destruct (IH c1 Hc1) as (c2 & tr2 & Hr & Hc2 & Hk2).
    rewrite Hp, Hr. eexists _, _. split; [reflexivity|]. split; [done|].
    intros Hall. inversion Hall as [|?? Ha Hrest]; subst.
    specialize (Hk1 Ha). rewrite Hk1 in Hk2. destruct (Hk2 Hrest) as [Hk Hcm2].
    split; [done|].
    unfold SceneCard.commits. rewrite omap_app. apply Forall_app. by split.
Qed.

(** Whatever the parent and the user do to a card, one action after the
    other: every action is in the model, and after it the card shows a
    placeholder or generated data, never an empty or another URL; its error
    is none or the one message of the card, never the text of an error of
    the client; and no image is marked as being generated. *)
Theorem card_display_stays_settled (p : SceneCard.Props) (actions : list Controls.Action) :
  0 <= SceneCard.saveTrigger p ->
  exists c tr, Controls.run (Controls.mount p) actions = Some (c, tr) /\
    let st := Controls.state c in
    (SceneCard.isPlaceholder (SceneCard.imageUrl st)
     \/ exists base64Data, SceneCard.imageUrl st = SceneCard.dataUrl base64Data) /\
    (SceneCard.imageError st = None
     \/ SceneCard.imageError st = Some "Oops! The image could not be generated.") /\
    SceneCard.isGeneratingImage st = false.
Proof.
  intros Hp.
  destruct (run_settled (Controls.mount p) actions (mount_settled p Hp))
    as (c & tr & Hr & (Hurl & Herr & Hgen & _) & _).
  by exists c, tr.
Qed.

Lemma card_display_stays_settled_witness :
  exists c tr, Controls.run (Controls.mount (Sample.props 0)) SampleRun.session = Some (c, tr) /\
    SceneCard.isGeneratingImage (Controls.state c) = false.
Proof.
  assert (Hp : 0 <= SceneCard.saveTrigger (Sample.props 0)) by (simpl; lia).
  destruct (card_display_stays_settled (Sample.props 0) SampleRun.session Hp)
    as (c & tr & Hr & _ & _ & Hg).
  by exists c, tr.
Defined.

(** A card is in the editing mode only under a counter of the save signal
    that is zero: once "save all" has been used, every way into the editing
    mode ends in a save, and no card stays open for editing. *)
Theorem editing_only_before_save_all (p : SceneCard.Props) (actions : list Controls.Action)
    (c : Controls.Card) (tr : list Event) :
  0 <= SceneCard.saveTrigger p ->
  Controls.run (Controls.mount p) actions = Some (c, tr) ->
  SceneCard.isEditing (Controls.state c) = true ->
  SceneCard.saveTrigger (Controls.props c) = 0.
Proof.
  intros Hp Hrun Hed.
  destruct (run_settled (Controls.mount p) actions (mount_settled p Hp))
    as (c' & tr' & Hr & (_ & _ & _ & _ & Hzero & _) & _).
  rewrite Hrun in Hr. injection Hr as <- <-. by apply Hzero.
Qed.

(** Before any "save all", an edit stays open. *)
Lemma editing_only_before_save_all_witness :
  exists c tr,
    Controls.run (Controls.mount (Sample.props 0)) [Controls.ClickEdit Sample.imageResponse]
    = Some (c, tr) /\
    SceneCard.isEditing (Controls.state c) = true /\
    SceneCard.saveTrigger (Controls.props c) = 0.
Proof.
  assert (Hp : 0 <= SceneCard.saveTrigger (Sample.props 0)) by (simpl; lia).
  eexists _, _. split; [reflexivity|]. split; [reflexivity|].
  exact (editing_only_before_save_all (Sample.props 0)
           [Controls.ClickEdit Sample.imageResponse] _ _ Hp eq_refl eq_refl).
Defined.

(** A card that the parent keeps on one key commits only scenes with that
    key: every scene that it gives to [onUpdateScene], in any run of
    actions, carries the identifier of the scene it was mounted with. *)
Theorem commits_carry_the_key (p : SceneCard.Props) (actions : list Controls.Action)
    (c : Controls.Card) (tr : list Event) :
  0 <= SceneCard.saveTrigger p ->
  Forall (Controls.keepsKey (Scene.id (SceneCard.scene p))) actions ->
  Controls.run (Controls.mount p) actions = Some (c, tr) ->
  Forall (fun s => Scene.id s = Scene.id (SceneCard.scene p)) (SceneCard.commits tr).
Proof.
  intros Hp Hkeys Hrun.
  destruct (run_settled (Controls.mount p) actions (mount_settled p Hp))
    as (c' & tr' & Hr & _ & Hk).
  rewrite Hrun in Hr. injection Hr as <- <-. by apply Hk.
Qed.

Lemma commits_carry_the_key_witness :
  exists c tr,
    Controls.run (Controls.mount (Sample.props 0)) SampleRun.session = Some (c, tr) /\
    SceneCard.commits tr <> [] /\
    Forall (fun s => Scene.id s = Some "id-b") (SceneCard.commits tr).
Proof.
  assert (Hp : 0 <= SceneCard.saveTrigger (Sample.props 0)) by (simpl; lia).
  assert (Hk : Forall (Controls.keepsKey (Scene.id (SceneCard.scene (Sample.props 0))))
                 SampleRun.session) by (repeat constructor).
  eexists _, _. split; [by vm_compute|]. split; [discriminate|].
  exact (commits_carry_the_key (Sample.props 0) SampleRun.session _ _ Hp Hk eq_refl).
Defined.

(** ** The Shell and its cards *)

Lemma JSArray_get_Some_inside {A} (a : list (option A)) (i : Z) (x : A) :
  JSArray.get a i = Some x -> 0 <= i < JSArray.length a.
Proof.
  intros H. destruct (decide (0 <= i < JSArray.length a)) as [|Hout]; [done|].
  rewrite JSArray_get_outside in H by lia. discriminate H.
Qed.

Lemma cardProps_Some (a : App.State) (index : Z) (p : SceneCard.Props) :
  Shell.cardProps a index = Some p ->
  exists cs scene,
    App.movieScript a = Some cs /\
    JSArray.get (MovieScript.scenes cs) index = Some scene /\
    0 <= index < JSArray.length (MovieScript.scenes cs) /\
    p = SceneCard.propsAt (App.saveTrigger a) (JSArray.length (MovieScript.scenes cs))
          index scene.
Proof.
  unfold Shell.cardProps. destruct (App.movieScript a) as [cs|]; [|discriminate].
  destruct (JSArray.get (MovieScript.scenes cs) index) as [scene|] eqn:Hg; [|discriminate].
  intros [= <-]. exists cs, scene. repeat split; try done;
    apply JSArray_get_Some_inside in Hg; lia.
Qed.


(** The arrows of a card that the Shell renders never run into the guard
    of [reorder]: an arrow sends nothing when the card is editing, or is
    the first card for "up", or the last card for "down"; in every other
    case it sends one reorder with the index of the card, the target of
    which is inside the array, and the Shell then has the two scenes
    exchanged. *)
Theorem arrows_always_swap (a : App.State) (index : Z) (p : SceneCard.Props)
    (st : SceneCard.State) (d : Direction) :
  Shell.cardProps a index = Some p ->
  exists cs, App.movieScript a = Some cs /\
    let s := MovieScript.scenes cs in
    let t := targetIndex index d in
    let tr := trace_of (Controls.clickMove p d st) in
    (tr = [] <->
       SceneCard.isEditing st = true \/ (d = up /\ index = 0)
       \/ (d = down /\ index = JSArray.length s - 1)) /\
    (tr <> [] ->
       tr = [OnReorderScene index d] /\
       0 <= t < JSArray.length s /\
       exists cs', App.movieScript (state_of (Shell.deliverAll index tr a)) = Some cs' /\
         JSArray.get (MovieScript.scenes cs') t = JSArray.get s index /\
         JSArray.get (MovieScript.scenes cs') index = JSArray.get s t).
Proof.
  intros Hp. destruct (cardProps_Some a index p Hp) as (cs & scene & Hcs & Hg & Hi & ->).
  exists cs. split; [done|]. simpl. rewrite clickMove_run. unfold trace_of. simpl.
  set (n := JSArray.length (MovieScript.scenes cs)) in *.
  destruct (SceneCard.isEditing st) eqn:He; simpl.
  { split; [split; [by left|done]|done]. }
  destruct d; simpl.
  - destruct (Z.eqb_spec index 0) as [H0|H0].
    + split; [split; [intros _; right; by left|done]|done].
    + split.
      * split; [discriminate|]. intros [Hf|[[_ Hf]|[Hf _]]]; [discriminate Hf|lia|discriminate Hf].
      * intros _. split; [done|]. split; [lia|].
        unfold Shell.deliverAll, Shell.deliver, App.onReorderScene, App.setMovieScript.
        run_act. rewrite Hcs, handleReorderScene_inside by (simpl; fold n; lia).
        eexists. split; [reflexivity|]. simpl. split.
        -- apply JSArray_get_set_eq. lia.
        -- rewrite JSArray_get_set_ne by lia. apply JSArray_get_set_eq. lia.
  - destruct (Z.eqb_spec index (n - 1)) as [H0|H0].
    + split; [split; [intros _; right; by right|done]|done].
    + split.
      * split; [discriminate|]. intros [Hf|[[Hf _]|[_ Hf]]]; [discriminate Hf|discriminate Hf|lia].
      * intros _. split; [done|]. split; [lia|].
        unfold Shell.deliverAll, Shell.deliver, App.onReorderScene, App.setMovieScript.
        run_act. rewrite Hcs, handleReorderScene_inside by (simpl; fold n; lia).
        eexists. split; [reflexivity|]. simpl. split.
        -- apply JSArray_get_set_eq. lia.
        -- rewrite JSArray_get_set_ne by lia. apply JSArray_get_set_eq. lia.
Qed.

Lemma arrows_always_swap_witness :
  let a := App.mk "" (Some (MovieScript.mk "T" "G" [Some Sample.scene; Some Sample.scene]))
             false None 0 in
  exists p, Shell.cardProps a 1 = Some p /\
    trace_of (Controls.clickMove p up Sample.shown) = [OnReorderScene 1 up] /\
    trace_of (Controls.clickMove p down Sample.shown) = [].
Proof.
  intros a. eexists. split; [reflexivity|].
  destruct (arrows_always_swap a 1 _ Sample.shown up eq_refl) as (cs & _ & _ & Hup).
  split; [|reflexivity].
  apply Hup. discriminate.
Defined.









(** ** The Shell over time *)

Lemma shell_perform_state (a : Shell.Action) (st : App.State) :
  shellIdle st ->
  shellIdle (state_of (Shell.perform a st)) /\
  App.saveTrigger st <= App.saveTrigger (state_of (Shell.perform a st))
  <= App.saveTrigger st + saveAllCount [a].
Proof.
  intros (Hl & He & Hs). unfold Shell.perform, shellIdle, saveAllCount, Shell.shownErrors in *.
  destruct a as [value|randomUUID settled| |index e]; run_act.
  - simpl. repeat split; try done; lia.
  - rewrite Hl. rewrite handleGenerateScript_run.
    destruct (negb _); [|destruct settled]; simpl; repeat split; try done; try lia;
      repeat (first [by constructor|apply list_elem_of_further]).
  - destruct (App.movieScript st); simpl; repeat split; try done; lia.
  - destruct (App.movieScript st); [|simpl; repeat split; try done; lia].
    destruct e; simpl; repeat split; try done; lia.
Qed.

Lemma shell_run_state (actions : list Shell.Action) (st : App.State) :
  shellIdle st ->
  shellIdle (state_of (Shell.run actions st)) /\
  App.saveTrigger st <= App.saveTrigger (state_of (Shell.run actions st))
  <= App.saveTrigger st + saveAllCount actions.
Proof.
  revert st. induction actions as [|a actions IH]; intros st Hst.
  - simpl. split; [done|]. unfold state_of; simpl. lia.
  - destruct (shell_perform_state a st Hst) as [H1 Hb1].
    destruct (IH _ H1) as [H2 Hb2].
    assert (Hrun : state_of (Shell.run (a :: actions) st)
                   = state_of (Shell.run actions (state_of (Shell.perform a st)))).
    { simpl. run_act. destruct (Shell.perform a st) as [[[] s1] t1]. simpl.
      by destruct (Shell.run actions s1) as [[[] s2] t2]. }
    rewrite Hrun. split; [done|].
    assert (Hc : saveAllCount (a :: actions) = saveAllCount [a] + saveAllCount actions)
      by (destruct a; simpl; lia).
    lia.
Qed.

(** Whatever is done to the Shell from its first render on, one action
    after the other: it is never left loading; its error is none, "Please
    enter a movie idea." or "Failed to generate script. Please check your
    API key and try again.", never the text of an error of the client; and
    the counter of the save signal is between zero and the number of "save
    all" so far, so it never decreases below zero and only "save all" moves
    it. *)
Theorem shell_stays_idle (actions : list Shell.Action) :
  let a := state_of (Shell.run actions App.init) in
  App.isLoading a = false /\
  App.error a ∈ Shell.shownErrors /\
  0 <= App.saveTrigger a <= saveAllCount actions.
Proof.
  assert (Hinit : shellIdle App.init).
  { unfold shellIdle, Shell.shownErrors. simpl. repeat split; [by constructor|lia]. }
  destruct (shell_run_state actions App.init Hinit) as [(Hl & He & Hs) Hb].
  simpl in *. repeat split; try done. lia.
Qed.
